(** * ami-migrate: the migration orchestrator of [pkg/ami/ami.go]

    A shallow embedding of the [Service] methods of package [ami] and of
    the goroutine fan-out of [MigrateInstances], together with the
    properties the specification states about them.

    The EC2 client is the [EC2ClientAPI] interface of the source: an
    arbitrary stateful provider.  Every method of [Service] is a program
    over the requests it sends to that interface; a provider is a state
    type with a handler answering each request.  The goroutines of
    [MigrateInstances] are interleaved by an explicit schedule.

    Conventions of the embedding:
    - a [*string] is an [option string], read with [aws.ToString];
    - a client method returns [Ok] with its output or [Err] with its
      error; the output pointer of a successful call and the [State]
      pointer of an instance are not nil;
    - the [context.Context] is passed on to every call and is not
      modelled: a cancellation is an error the provider answers with;
    - the SDK waiters and the clock are effects answered by the
      environment, like the calls of the client;
    - [wg.Add(1)], [go] and the deferred [wg.Done()] are one effect,
      [wg.Wait()] another; a panic in any goroutine ends the process. *)

From Stdlib Require Import String List Bool Arith Lia.
Import ListNotations.
Local Open Scope list_scope.
Local Open Scope string_scope.

(** ** Go values *)

(** [aws.ToString]: a nil [*string] reads as the empty string. *)
Definition ToString (p : option string) : string :=
  match p with
  | Some s => s
  | None => ""
  end.

(** [len(xs) == 0] *)
Definition len_is_zero {A : Type} (xs : list A) : bool :=
  match xs with
  | [] => true
  | _ :: _ => false
  end.

(** Go [error] values.  [errorString] is an error raised by the provider
    (or by an SDK waiter); [wrapError] is what [fmt.Errorf] builds for a
    format with one [%w] verb: the formatted message and the wrapped
    error. *)
Inductive error : Type :=
| errorString (s : string)
| wrapError (msg : string) (err : error).

(** [err.Error()] *)
Definition Error (e : error) : string :=
  match e with
  | errorString s => s
  | wrapError msg _ => msg
  end.

(** [errors.Unwrap(err)] *)
Definition Unwrap (e : error) : option error :=
  match e with
  | errorString _ => None
  | wrapError _ err => Some err
  end.

(** [fmt.Errorf(prefix + "%w", err)] *)
Definition Errorf_w (prefix : string) (err : error) : error :=
  wrapError (prefix ++ Error err) err.

(** [fmt.Sprintf(prefix + "%v", err)] *)
Definition Sprintf_v (prefix : string) (err : error) : string :=
  prefix ++ Error err.

(** A Go [(value, error)] pair returned by a client method: the value is
    only read when the error is nil. *)
Inductive result (A : Type) : Type :=
| Ok (a : A)
| Err (e : error).
Arguments Ok {A} a.
Arguments Err {A} e.

Definition result_err {A : Type} (r : result A) : option error :=
  match r with
  | Ok _ => None
  | Err e => Some e
  end.

(** ** The EC2 data the orchestrator reads ([ec2/types]) *)

Record Tag : Type := mkTag {
  Key : option string;
  Value : option string
}.

(** [types.InstanceStateName] is a string type. *)
Definition InstanceStateNameRunning : string := "running".

Record InstanceState : Type := mkInstanceState {
  Name : string
}.

Record EbsInstanceBlockDevice : Type := mkEbs {
  VolumeId : option string
}.

Record InstanceBlockDeviceMapping : Type := mkMapping {
  DeviceName : option string;
  Ebs : option EbsInstanceBlockDevice
}.

(** [types.Instance].  [State] is a pointer in the SDK which the provider
    fills for every instance it describes; it is modelled by the struct
    it points to. *)
Record Instance : Type := mkInstance {
  InstanceId : option string;
  State : InstanceState;
  InstanceType : string;
  BlockDeviceMappings : list InstanceBlockDeviceMapping;
  Tags : list Tag
}.

Record Image : Type := mkImage {
  ImageId : option string
}.

Record Reservation : Type := mkReservation {
  ReservationInstances : list Instance
}.

(** ** Requests to the provider *)

Record Filter : Type := mkFilter {
  FilterName : option string;
  FilterValues : list string
}.

Record CreateSnapshotInput : Type := mkCreateSnapshotInput {
  SnapVolumeId : option string;
  SnapDescription : option string
}.

Record RunInstancesInput : Type := mkRunInstancesInput {
  RunImageId : option string;
  RunInstanceType : string;
  MinCount : nat;
  MaxCount : nat
}.

Record CreateTagsInput : Type := mkCreateTagsInput {
  Resources : list string;
  TagsToCreate : list Tag
}.

(** The effects of a goroutine of this package: the eight methods of
    [EC2ClientAPI], the two SDK waiters built on the client
    ([ec2.NewInstanceRunningWaiter], [ec2.NewInstanceStoppedWaiter], which
    poll the provider until the state is reached or the bound expires),
    and the clock reading [time.Now().UTC().Format(layout)]. *)
Inductive Request : Type :=
| DescribeImages (filters : list Filter)
| DescribeInstances (filters : list Filter)
| CreateSnapshot (input : CreateSnapshotInput)
| TerminateInstances (ids : list string)
| RunInstances (input : RunInstancesInput)
| StopInstances (ids : list string)
| StartInstances (ids : list string)
| CreateTags (input : CreateTagsInput)
| InstanceRunningWaiter (ids : list string)
| InstanceStoppedWaiter (ids : list string)
| NowUTCFormat (layout : string).

Definition Response (q : Request) : Type :=
  match q with
  | DescribeImages _ => result (list Image)
  | DescribeInstances _ => result (list Reservation)
  | CreateSnapshot _ => result unit
  | TerminateInstances _ => result unit
  | RunInstances _ => result (list Instance)
  | StopInstances _ => result unit
  | StartInstances _ => result unit
  | CreateTags _ => result unit
  | InstanceRunningWaiter _ => result unit
  | InstanceStoppedWaiter _ => result unit
  | NowUTCFormat _ => string
  end.

(** An answer as the log keeps it. *)
Inductive Answer : Type :=
| AErr (e : error)
| ADone
| AImages (images : list Image)
| AReservations (reservations : list Reservation)
| AInstances (instances : list Instance)
| ATime (formatted : string).

Definition answer_result {A : Type} (ok : A -> Answer) (r : result A) : Answer :=
  match r with
  | Ok a => ok a
  | Err e => AErr e
  end.

Definition answer_of (q : Request) : Response q -> Answer :=
  match q return Response q -> Answer with
  | DescribeImages _ => answer_result AImages
  | DescribeInstances _ => answer_result AReservations
  | CreateSnapshot _ => answer_result (fun _ => ADone)
  | TerminateInstances _ => answer_result (fun _ => ADone)
  | RunInstances _ => answer_result AInstances
  | StopInstances _ => answer_result (fun _ => ADone)
  | StartInstances _ => answer_result (fun _ => ADone)
  | CreateTags _ => answer_result (fun _ => ADone)
  | InstanceRunningWaiter _ => answer_result (fun _ => ADone)
  | InstanceStoppedWaiter _ => answer_result (fun _ => ADone)
  | NowUTCFormat _ => ATime
  end.

(** ** Programs *)

(** A program sends requests and continues with the answer; [Panic] is a
    Go run-time panic (an index out of range), which ends the process. *)
Section Prog.
Variable Q : Type.
Variable A : Q -> Type.

Inductive prog (R : Type) : Type :=
| Ret (r : R)
| Vis (q : Q) (k : A q -> prog R)
| Panic (msg : string).

Arguments Ret {R} r.
Arguments Vis {R} q k.
Arguments Panic {R} msg.

Fixpoint bind {R S : Type} (p : prog R) (f : R -> prog S) : prog S :=
  match p with
  | Ret r => f r
  | Vis q k => Vis q (fun x => bind (k x) f)
  | Panic msg => Panic msg
  end.

Definition call (q : Q) : prog (A q) := Vis q (fun x => Ret x).
End Prog.

Arguments prog {Q} A R.
Arguments Ret {Q A R} r.
Arguments Vis {Q A R} q k.
Arguments Panic {Q A R} msg.
Arguments bind {Q A R S} p f.
Arguments call {Q A} q.

Declare Scope prog_scope.
Delimit Scope prog_scope with prog.
Notation "x <- p ;; f" := (bind p (fun x => f))
  (at level 61, p at next level, right associativity) : prog_scope.
Notation "p ;;; f" := (bind p (fun _ => f))
  (at level 61, right associativity) : prog_scope.
Local Open Scope prog_scope.

(** The code of one goroutine. *)
Definition ec2 : Type -> Type := prog Response.

(** ** The methods of [Service] *)

Definition RFC3339 : string := "2006-01-02T15:04:05Z07:00".

(** [GetAMIWithTag] *)
Definition GetAMIWithTag (tagKey tagValue : string) : ec2 (string * option error) :=
  r <- call (DescribeImages [mkFilter (Some ("tag:" ++ tagKey)) [tagValue]]) ;;
  match r with
  | Err err => Ret ("", Some (Errorf_w "describe images: " err))
  | Ok images =>
      match images with
      | [] => Ret ("", None)
      | image :: _ => Ret (ToString (ImageId image), None)
      end
  end.

(** [TagAMI] *)
Definition TagAMI (amiID tagKey tagValue : string) : ec2 (option error) :=
  r <- call (CreateTags (mkCreateTagsInput [amiID] [mkTag (Some tagKey) (Some tagValue)])) ;;
  Ret (result_err r).

(** [fetchEnabledInstances]: the instances of all reservations, in
    order. *)
Fixpoint appendReservations (instances : list Instance) (rs : list Reservation)
  : list Instance :=
  match rs with
  | [] => instances
  | reservation :: rest =>
      appendReservations (instances ++ ReservationInstances reservation)%list rest
  end.

Definition fetchEnabledInstances (enabledValue : string) : ec2 (result (list Instance)) :=
  r <- call (DescribeInstances [mkFilter (Some "tag:ami-migrate") [enabledValue]]) ;;
  match r with
  | Err err => Ret (Err err)
  | Ok reservations => Ret (Ok (appendReservations [] reservations))
  end.

(** [shouldMigrateInstance]: the loop over the tags stops at the first
    tag that matches. *)
Fixpoint hasIfRunningTag (tags : list Tag) : bool :=
  match tags with
  | [] => false
  | tag :: rest =>
      if (ToString (Key tag) =? "ami-migrate-if-running")
         && (ToString (Value tag) =? "enabled")
      then true
      else hasIfRunningTag rest
  end.

Definition shouldMigrateInstance (instance : Instance) : bool * bool :=
  let isRunning := Name (State instance) =? InstanceStateNameRunning in
  if isRunning then (hasIfRunningTag (Tags instance), false)
  else (true, false).

(** [startInstance] *)
Definition startInstance (instance : Instance) : ec2 (option error) :=
  r <- call (StartInstances [ToString (InstanceId instance)]) ;;
  match r with
  | Err err => Ret (Some err)
  | Ok _ =>
      w <- call (InstanceRunningWaiter [ToString (InstanceId instance)]) ;;
      Ret (result_err w)
  end.

(** [stopInstance] *)
Definition stopInstance (instance : Instance) : ec2 (option error) :=
  r <- call (StopInstances [ToString (InstanceId instance)]) ;;
  match r with
  | Err err => Ret (Some err)
  | Ok _ =>
      w <- call (InstanceStoppedWaiter [ToString (InstanceId instance)]) ;;
      Ret (result_err w)
  end.

(** [copyTags] *)
Fixpoint tagsToCopy (tags : list Tag) : list Tag :=
  match tags with
  | [] => []
  | tag :: rest =>
      if ToString (Key tag) =? "ami-migrate-status" then tagsToCopy rest
      else tag :: tagsToCopy rest
  end.

Definition copyTags (oldInstance newInstance : Instance) : ec2 (option error) :=
  r <- call (CreateTags (mkCreateTagsInput [ToString (InstanceId newInstance)]
                                           (tagsToCopy (Tags oldInstance)))) ;;
  Ret (result_err r).

(** [tagInstanceStatus] *)
Definition statusTags (status message timestamp : string) : list Tag :=
  [ mkTag (Some "ami-migrate-status") (Some status);
    mkTag (Some "ami-migrate-message") (Some message);
    mkTag (Some "ami-migrate-timestamp") (Some timestamp) ].

Definition tagInstanceStatus (instance : Instance) (status message : string)
  : ec2 (option error) :=
  now <- call (NowUTCFormat RFC3339) ;;
  r <- call (CreateTags (mkCreateTagsInput [ToString (InstanceId instance)]
                                           (statusTags status message now))) ;;
  Ret (result_err r).

(** [upgradeInstance].  The first loop ([snapshotVolumes]) snapshots every
    mapping that has an EBS device and returns at the first error;
    [replaceInstance] is the rest of the body from [RunInstances] on. *)
Definition snapshotInput (instance : Instance) (ebs : EbsInstanceBlockDevice)
  : CreateSnapshotInput :=
  mkCreateSnapshotInput (VolumeId ebs)
    (Some ("Backup before AMI migration for instance "
           ++ ToString (InstanceId instance))).

Fixpoint snapshotVolumes (instance : Instance)
    (mappings : list InstanceBlockDeviceMapping) : ec2 (option error) :=
  match mappings with
  | [] => Ret None
  | mapping :: rest =>
      match Ebs mapping with
      | Some ebs =>
          r <- call (CreateSnapshot (snapshotInput instance ebs)) ;;
          match r with
          | Err err => Ret (Some (Errorf_w "create snapshot: " err))
          | Ok _ => snapshotVolumes instance rest
          end
      | None => snapshotVolumes instance rest
      end
  end.

Definition runInput (newAMI : string) (instance : Instance) : RunInstancesInput :=
  mkRunInstancesInput (Some newAMI) (InstanceType instance) 1 1.

Definition replaceInstance (newAMI : string) (instance : Instance)
  : ec2 (option error) :=
  runResult <- call (RunInstances (runInput newAMI instance)) ;;
  match runResult with
  | Err err => Ret (Some (Errorf_w "run instances: " err))
  | Ok newInstances =>
      t <- call (TerminateInstances [ToString (InstanceId instance)]) ;;
      match t with
      | Err err => Ret (Some (Errorf_w "terminate instance: " err))
      | Ok _ =>
          match newInstances with
          | [] => Panic "index out of range [0] with length 0"
          | newInstance :: _ =>
              c <- copyTags instance newInstance ;;
              match c with
              | Some err => Ret (Some (Errorf_w "copy tags: " err))
              | None => Ret None
              end
          end
      end
  end.

Definition upgradeInstance (newAMI : string) (instance : Instance)
  : ec2 (option error) :=
  s <- snapshotVolumes instance (BlockDeviceMappings instance) ;;
  match s with
  | Some err => Ret (Some err)
  | None =>
      if Name (State instance) =? InstanceStateNameRunning then
        st <- stopInstance instance ;;
        match st with
        | Some err => Ret (Some (Errorf_w "stop instance: " err))
        | None => replaceInstance newAMI instance
        end
      else replaceInstance newAMI instance
  end.

(** ** [MigrateInstances] *)

(** The body of the goroutine that [MigrateInstances] starts for an
    instance: [go func(inst types.Instance, start bool) { ... }].  The
    body reads the captured [needsStart] of the loop iteration. *)
Definition completeTask (inst : Instance) : ec2 unit :=
  tagInstanceStatus inst "completed" "Migration completed successfully" ;;;
  Ret tt.

Definition upgradeTask (newAMI : string) (inst : Instance) (needsStart : bool)
  : ec2 unit :=
  u <- upgradeInstance newAMI inst ;;
  match u with
  | Some err =>
      tagInstanceStatus inst "failed"
        (Sprintf_v "Failed to upgrade instance: " err) ;;;
      Ret tt
  | None =>
      if needsStart && negb (Name (State inst) =? InstanceStateNameRunning) then
        s <- stopInstance inst ;;
        match s with
        | Some err =>
            tagInstanceStatus inst "warning"
              (Sprintf_v "Migration successful but failed to stop instance: " err) ;;;
            Ret tt
        | None => completeTask inst
        end
      else completeTask inst
  end.

Definition migrateTask (newAMI : string) (inst : Instance) (needsStart : bool)
  : ec2 unit :=
  tagInstanceStatus inst "in-progress" "Starting migration" ;;;
  if needsStart && negb (Name (State inst) =? InstanceStateNameRunning) then
    s <- startInstance inst ;;
    match s with
    | Some err =>
        tagInstanceStatus inst "failed"
          (Sprintf_v "Failed to start instance: " err) ;;;
        Ret tt
    | None => upgradeTask newAMI inst needsStart
    end
  else upgradeTask newAMI inst needsStart.

(** The effects of the goroutine that runs [MigrateInstances]: a request
    to the provider, [wg.Add(1)] followed by [go] of a task that ends
    with [wg.Done()], and [wg.Wait()]. *)
Inductive GoRequest : Type :=
| Call (q : Request)
| Go (task : ec2 unit)
| WaitGroupWait.

Definition GoResponse (g : GoRequest) : Type :=
  match g with
  | Call q => Response q
  | Go _ => unit
  | WaitGroupWait => unit
  end.

Definition goroutine : Type -> Type := prog GoResponse.

(** A method of [Service] called from the main goroutine. *)
Fixpoint inMain {R : Type} (p : ec2 R) : goroutine R :=
  match p with
  | Ret r => Ret r
  | Vis q k => Vis (Call q) (fun x => inMain (k x))
  | Panic msg => Panic msg
  end.

Definition skippedMessage : string :=
  "Instance state or tags do not meet migration criteria".

(** The [for _, instance := range instances] loop. *)
Fixpoint migrateLoop (newAMI : string) (instances : list Instance)
  : goroutine unit :=
  match instances with
  | [] => Ret tt
  | instance :: rest =>
      let (shouldMigrate, needsStart) := shouldMigrateInstance instance in
      if negb shouldMigrate then
        inMain (tagInstanceStatus instance "skipped" skippedMessage) ;;;
        migrateLoop newAMI rest
      else
        call (Go (migrateTask newAMI instance needsStart)) ;;;
        migrateLoop newAMI rest
  end.

(** [MigrateInstances]; [afterFetch] is its body from the check of
    [err] on. *)
Definition afterFetch (newAMI : string) (r : result (list Instance))
  : goroutine (option error) :=
  match r with
  | Err err => Ret (Some (Errorf_w "fetch instances: " err))
  | Ok instances =>
      if len_is_zero instances then Ret None
      else
        migrateLoop newAMI instances ;;;
        call WaitGroupWait ;;;
        Ret None
  end.

Definition MigrateInstances (oldAMI newAMI enabledValue : string)
  : goroutine (option error) :=
  r <- inMain (fetchEnabledInstances enabledValue) ;;
  afterFetch newAMI r.

(** ** Running programs against a provider *)

(** What a provider was asked and what it answered. *)
Record Event : Type := mkEvent {
  request : Request;
  answer : Answer
}.

(** The error a provider answered with, if any. *)
Definition failure (ev : Event) : option error :=
  match answer ev with
  | AErr e => Some e
  | _ => None
  end.

Inductive outcome (R : Type) : Type :=
| Returned (r : R)
| Panicked (msg : string).
Arguments Returned {R} r.
Arguments Panicked {R} msg.

Definition finished {Q : Type} {A : Q -> Type} {R : Type} (p : prog A R) : bool :=
  match p with
  | Ret _ => true
  | _ => false
  end.

Fixpoint replace_nth {A : Type} (i : nat) (x : A) (l : list A) : list A :=
  match l, i with
  | [], _ => []
  | _ :: rest, 0 => x :: rest
  | y :: rest, S j => y :: replace_nth j x rest
  end.

Section Provider.
(** A provider: its state and how it answers a request. *)
Variable W : Type.
Variable handle : W -> forall q : Request, W * Response q.

(** One goroutine run to its end, alone, from provider state [w]. *)
Fixpoint exec {R : Type} (p : ec2 R) (w : W) : W * list Event * outcome R :=
  match p with
  | Ret r => (w, [], Returned r)
  | Panic msg => (w, [], Panicked msg)
  | Vis q k =>
      let (w1, x) := handle w q in
      let '(w2, evs, o) := exec (k x) w1 in
      (w2, mkEvent q (answer_of q x) :: evs, o)
  end.

(** The process: the main goroutine (number 0), the tasks it has
    started (numbers 1, 2, ... in the order of their [go] statements),
    and the log of the requests made so far, each with the number of the
    goroutine that made it.  [launched] keeps the tasks as they were
    started. *)
Record process (R : Type) : Type := mkProcess {
  world : W;
  mainG : goroutine R;
  pool : list (ec2 unit);
  launched : list (ec2 unit);
  log : list (nat * Event);
  crashed : bool
}.
Arguments mkProcess {R} _ _ _ _ _ _.
Arguments world {R} _.
Arguments mainG {R} _.
Arguments pool {R} _.
Arguments launched {R} _.
Arguments log {R} _.
Arguments crashed {R} _.

Definition start {R : Type} (w : W) (p : goroutine R) : process R :=
  mkProcess w p [] [] [] false.

(** One step of the main goroutine.  [wg.Wait()] only returns once
    every started task has finished; a panic ends the process. *)
Definition step_main {R : Type} (s : process R) : process R :=
  match mainG s with
  | Ret _ => s
  | Panic _ =>
      mkProcess (world s) (mainG s) (pool s) (launched s) (log s) true
  | Vis g k =>
      match g return (GoResponse g -> goroutine R) -> process R with
      | Call q => fun k =>
          let (w1, x) := handle (world s) q in
          mkProcess w1 (k x) (pool s) (launched s)
            (log s ++ [(0, mkEvent q (answer_of q x))])%list (crashed s)
      | Go task => fun k =>
          mkProcess (world s) (k tt) (pool s ++ [task])%list
            (launched s ++ [task])%list (log s) (crashed s)
      | WaitGroupWait => fun k =>
          if forallb finished (pool s)
          then mkProcess (world s) (k tt) (pool s) (launched s) (log s) (crashed s)
          else s
      end k
  end.

(** One step of task [i] (goroutine [S i]). *)
Definition step_task {R : Type} (i : nat) (s : process R) : process R :=
  match nth_error (pool s) i with
  | None => s
  | Some (Ret _) => s
  | Some (Panic _) =>
      mkProcess (world s) (mainG s) (pool s) (launched s) (log s) true
  | Some (Vis q k) =>
      let (w1, x) := handle (world s) q in
      mkProcess w1 (mainG s) (replace_nth i (k x) (pool s)) (launched s)
        (log s ++ [(S i, mkEvent q (answer_of q x))])%list (crashed s)
  end.

Definition step_goroutine {R : Type} (g : nat) (s : process R) : process R :=
  match g with
  | 0 => step_main s
  | S i => step_task i s
  end.

(** The goroutines that can take a step. *)
Definition main_ready {R : Type} (s : process R) : bool :=
  match mainG s with
  | Ret _ => false
  | Vis WaitGroupWait _ => forallb finished (pool s)
  | _ => true
  end.

Fixpoint ready_tasks (g : nat) (tasks : list (ec2 unit)) : list nat :=
  match tasks with
  | [] => []
  | t :: rest =>
      if finished t then ready_tasks (S g) rest
      else g :: ready_tasks (S g) rest
  end.

Definition runnable {R : Type} (s : process R) : list nat :=
  if crashed s then []
  else ((if main_ready s then [0] else []) ++ ready_tasks 1 (pool s))%list.

(** The scheduler: choice [c] picks one of the runnable goroutines; a
    process with none stays as it is. *)
Definition step {R : Type} (c : nat) (s : process R) : process R :=
  match nth_error (runnable s) (c mod length (runnable s)) with
  | Some g => step_goroutine g s
  | None => s
  end.

Fixpoint run {R : Type} (schedule : list nat) (s : process R) : process R :=
  match schedule with
  | [] => s
  | c :: rest => run rest (step c s)
  end.

(** What [MigrateInstances] has returned, if it has. *)
Definition returned {R : Type} (s : process R) : option R :=
  if crashed s then None
  else match mainG s with
       | Ret r => Some r
       | _ => None
       end.
End Provider.

Arguments world {W R} _.
Arguments mainG {W R} _.
Arguments pool {W R} _.
Arguments launched {W R} _.
Arguments log {W R} _.
Arguments crashed {W R} _.
Arguments mkProcess {W R} _ _ _ _ _ _.
Arguments start {W R} w p.
Arguments exec {W} handle {R} p w.
Arguments step_main {W} handle {R} s.
Arguments step_task {W} handle {R} i s.
Arguments step_goroutine {W} handle {R} g s.
Arguments main_ready {W R} s.
Arguments runnable {W R} s.
Arguments step {W} handle {R} c s.
Arguments run {W} handle {R} schedule s.
Arguments returned {W R} s.

(** The log, the result and the final provider state of [exec]. *)
Definition events {W R : Type} (handle : W -> forall q : Request, W * Response q)
    (p : ec2 R) (w : W) : list Event :=
  snd (fst (exec handle p w)).

Definition result_of {W R : Type} (handle : W -> forall q : Request, W * Response q)
    (p : ec2 R) (w : W) : outcome R :=
  snd (exec handle p w).

Definition world_after {W R : Type} (handle : W -> forall q : Request, W * Response q)
    (p : ec2 R) (w : W) : W :=
  fst (fst (exec handle p w)).

(** The requests goroutine [g] has made, oldest first. *)
Fixpoint requests_of (g : nat) (l : list (nat * Event)) : list Request :=
  match l with
  | [] => []
  | (h, ev) :: rest =>
      if Nat.eqb h g then request ev :: requests_of g rest
      else requests_of g rest
  end.

(** ** Monitors: what a goroutine does along every path *)

Section Monitor.
Variable Q : Type.
Variable A : Q -> Type.
(** A monitor reads the requests of one goroutine; [None] rejects. *)
Variable M : Type.
Variable delta : M -> Q -> option M.
(** The answers that can occur, and whether a panic is acceptable. *)
Variable good : forall q : Q, A q -> Prop.
Variable PP : Prop.

Fixpoint accepts (m : M) (qs : list Q) : option M :=
  match qs with
  | [] => Some m
  | q :: rest =>
      match delta m q with
      | Some m1 => accepts m1 rest
      | None => None
      end
  end.

(** Every path of [p] under good answers is accepted from [m], does
    not panic unless [PP], and returns a value that [PR] allows in the
    monitor state reached. *)
Fixpoint obeys {R : Type} (PR : M -> R -> Prop) (m : M) (p : prog A R) : Prop :=
  match p with
  | Ret r => PR m r
  | Panic _ => PP
  | Vis q k =>
      match delta m q with
      | None => False
      | Some m1 => forall x : A q, good q x -> obeys PR m1 (k x)
      end
  end.

(** A bound on the number of steps of every path of [p]. *)
Fixpoint within {R : Type} (p : prog A R) (n : nat) : Prop :=
  match p with
  | Ret _ => True
  | Panic _ => 1 <= n
  | Vis q k =>
      match n with
      | 0 => False
      | S n1 => forall x : A q, within (k x) n1
      end
  end.
End Monitor.

Arguments accepts {Q M} delta m qs.
Arguments obeys {Q A M} delta good PP {R} PR m p.
Arguments within {Q A R} p n.

Section MainMonitor.
(** The monitor of the tasks, started in [mt0]; the monitor of the main
    goroutine. *)
Variable Mt : Type.
Variable deltaT : Mt -> Request -> option Mt.
Variable mt0 : Mt.
Variable M1 : Type.
Variable delta1 : M1 -> Request -> option M1.
Variable good : forall q : Request, Response q -> Prop.
Variable PP : Prop.

(** As [obeys], for the main goroutine: every task it starts obeys the
    task monitor, and the tasks it starts are, in order, [todo]. *)
Fixpoint obeys_main {R : Type} (PR : M1 -> R -> Prop) (m : M1)
    (todo : list (ec2 unit)) (p : goroutine R) : Prop :=
  match p with
  | Ret r => PR m r /\ todo = []
  | Panic _ => PP
  | Vis g k =>
      match g return (GoResponse g -> goroutine R) -> Prop with
      | Call q => fun k =>
          match delta1 m q with
          | None => False
          | Some m1 => forall x : Response q, good q x -> obeys_main PR m1 todo (k x)
          end
      | Go task => fun k =>
          obeys deltaT good PP (fun _ _ => True) mt0 task /\
          match todo with
          | [] => False
          | t :: rest => t = task /\ obeys_main PR m rest (k tt)
          end
      | WaitGroupWait => fun k => obeys_main PR m todo (k tt)
      end k
  end.

(** A bound on the steps of the main goroutine and of the tasks it
    starts. *)
Fixpoint within_main {R : Type} (p : goroutine R) (n : nat) : Prop :=
  match p with
  | Ret _ => True
  | Panic _ => 1 <= n
  | Vis g k =>
      match g return (GoResponse g -> goroutine R) -> Prop with
      | Call q => fun k =>
          match n with
          | 0 => False
          | S n1 => forall x : Response q, within_main (k x) n1
          end
      | Go task => fun k =>
          exists a b, within task a /\ within_main (k tt) b /\ S (a + b) <= n
      | WaitGroupWait => fun k =>
          match n with
          | 0 => False
          | S n1 => within_main (k tt) n1
          end
      end k
  end.
End MainMonitor.

Arguments obeys_main {Mt} deltaT mt0 {M1} delta1 good PP {R} PR m todo p.
Arguments within_main {R} p n.

(** ** A scripted provider and the instances of the scenarios *)

Record Script : Type := mkScript {
  fleet : list Instance;
  catalogue : list Image;
  replacements : list Instance;
  failingVolume : option string
}.

(** The provider counts the requests it has answered.  It fails the
    snapshot of [failingVolume] and succeeds everywhere else. *)
Definition scripted (sc : Script) (w : nat) (q : Request) : nat * Response q :=
  (S w,
   match q return Response q with
   | DescribeImages _ => Ok (catalogue sc)
   | DescribeInstances _ => Ok [mkReservation (fleet sc)]
   | CreateSnapshot input =>
       match failingVolume sc with
       | Some v =>
           if ToString (SnapVolumeId input) =? v
           then Err (errorString "SnapshotCreationPerVolumeRateExceeded")
           else Ok tt
       | None => Ok tt
       end
   | TerminateInstances _ => Ok tt
   | RunInstances _ => Ok (replacements sc)
   | StopInstances _ => Ok tt
   | StartInstances _ => Ok tt
   | CreateTags _ => Ok tt
   | InstanceRunningWaiter _ => Ok tt
   | InstanceStoppedWaiter _ => Ok tt
   | NowUTCFormat _ => "2024-05-01T12:00:00Z"
   end).

(** A provider whose eligibility query fails. *)
Definition unreachable (w : nat) (q : Request) : nat * Response q :=
  (S w,
   match q return Response q with
   | DescribeImages _ => Err (errorString "RequestTimeout")
   | DescribeInstances _ => Err (errorString "RequestTimeout")
   | CreateSnapshot _ => Ok tt
   | TerminateInstances _ => Ok tt
   | RunInstances _ => Ok []
   | StopInstances _ => Ok tt
   | StartInstances _ => Ok tt
   | CreateTags _ => Ok tt
   | InstanceRunningWaiter _ => Ok tt
   | InstanceStoppedWaiter _ => Ok tt
   | NowUTCFormat _ => "2024-05-01T12:00:00Z"
   end).

Definition enabledTag : Tag := mkTag (Some "ami-migrate") (Some "enabled").
Definition ifRunningTag : Tag := mkTag (Some "ami-migrate-if-running") (Some "enabled").

(** [i-1]: running, only the primary marker. *)
Definition i1 : Instance :=
  mkInstance (Some "i-1") (mkInstanceState "running") "t3.micro"
    [mkMapping (Some "/dev/xvda") (Some (mkEbs (Some "vol-r")))]
    [enabledTag].

(** [i-2]: stopped, two EBS volumes, a status left by an earlier run. *)
Definition i2 : Instance :=
  mkInstance (Some "i-2") (mkInstanceState "stopped") "m5.large"
    [mkMapping (Some "/dev/xvda") (Some (mkEbs (Some "vol-a")));
     mkMapping (Some "/dev/xvdb") (Some (mkEbs (Some "vol-b")))]
    [enabledTag;
     mkTag (Some "Name") (Some "db");
     mkTag (Some "ami-migrate-status") (Some "failed")].

(** [i-3]: running, both markers. *)
Definition i3 : Instance :=
  mkInstance (Some "i-3") (mkInstanceState "running") "t3.micro"
    [mkMapping (Some "/dev/xvda") (Some (mkEbs (Some "vol-c")))]
    [enabledTag; ifRunningTag].

Definition iNew : Instance :=
  mkInstance (Some "i-new") (mkInstanceState "pending") "m5.large" [] [].

(** ** Vocabulary of the statements *)

(** The EBS devices of an instance's block device mappings, in order. *)
Fixpoint ebsDevices (mappings : list InstanceBlockDeviceMapping)
  : list EbsInstanceBlockDevice :=
  match mappings with
  | [] => []
  | mapping :: rest =>
      match Ebs mapping with
      | Some ebs => ebs :: ebsDevices rest
      | None => ebsDevices rest
      end
  end.

(** A snapshot request for a device of [instance], with its answer. *)
Definition snapshotEvent (instance : Instance) (a : Answer)
    (ebs : EbsInstanceBlockDevice) : Event :=
  mkEvent (CreateSnapshot (snapshotInput instance ebs)) a.

(** The two events of a status write on [instance]: the clock reading
    [now] and the [CreateTags] of the audit triple, answered [a]. *)
Definition statusEvents (instance : Instance) (status message now : string)
    (a : Answer) : list Event :=
  [ mkEvent (NowUTCFormat RFC3339) (ATime now);
    mkEvent (CreateTags (mkCreateTagsInput [ToString (InstanceId instance)]
                           (statusTags status message now))) a ].

Definition isCreateSnapshot (q : Request) : bool :=
  match q with
  | CreateSnapshot _ => true
  | _ => false
  end.

Definition isRunInstances (q : Request) : bool :=
  match q with
  | RunInstances _ => true
  | _ => false
  end.

(** A monitor without state that rejects the requests in [bad]. *)
Definition rejecting (bad : Request -> bool) (m : unit) (q : Request) : option unit :=
  if bad q then None else Some m.

(** Every answer can occur. *)
Definition anyAnswer (q : Request) (x : Response q) : Prop := True.

(** A provider that honours [MinCount = 1]: a [RunInstances] that
    succeeds returns at least one instance. *)
Definition launchesOne (q : Request) : Response q -> Prop :=
  match q return Response q -> Prop with
  | RunInstances _ => fun x => x <> Ok []
  | _ => fun _ => True
  end.

(** [runs handle p w evs o w1]: goroutine [p], run alone from provider
    state [w], makes the requests [evs], ends as [o] and leaves the
    provider in [w1]. *)
Definition runs {W R : Type} (handle : W -> forall q : Request, W * Response q)
    (p : ec2 R) (w : W) (evs : list Event) (o : outcome R) (w1 : W) : Prop :=
  exec handle p w = (w1, evs, o).

(** No call of the log failed; no [RunInstances] of the log succeeded
    without an instance. *)
Definition succeeded (ev : Event) : Prop := failure ev = None.
Definition launched_one (ev : Event) : Prop := answer ev <> AInstances [].

(** The status writes among requests: the resources, the status and the
    message of every [CreateTags] of an audit triple. *)
Definition Audit : Type := (list string * string * string)%type.

Definition auditOf (q : Request) : list Audit :=
  match q with
  | CreateTags
      (mkCreateTagsInput resources
         [mkTag (Some k1) (Some status); mkTag (Some k2) (Some message);
          mkTag (Some k3) (Some _)]) =>
      if (k1 =? "ami-migrate-status") && (k2 =? "ami-migrate-message")
         && (k3 =? "ami-migrate-timestamp")
      then [(resources, status, message)]
      else []
  | _ => []
  end.

Definition audits (qs : list Request) : list Audit := flat_map auditOf qs.

(** The scenario of the specification: [i-2] is stopped and has the
    volumes [vol-a] and [vol-b]; the provider launches [i-new]. *)
Definition scenario2 : Script := mkScript [i2] [] [iNew] None.

(** As [scenario2], with a provider that fails the snapshot of [vol-b]. *)
Definition scenario2Failing : Script := mkScript [i2] [] [iNew] (Some "vol-b").

Definition snapshotFailed : error := errorString "SnapshotCreationPerVolumeRateExceeded".

(** ** Invariants of a process *)

Section Invariant.
Variable W : Type.
Variable Mt : Type.
Variable deltaT : Mt -> Request -> option Mt.
Variable mt0 : Mt.
Variable M1 : Type.
Variable delta1 : M1 -> Request -> option M1.
Variable m10 : M1.
Variable good : forall q : Request, Response q -> Prop.
Variable PP : Prop.
Variable R : Type.
Variable PR : M1 -> R -> Prop.
Variable tasks : list (ec2 unit).

(** Task [i] has made requests its monitor accepts and obeys it from
    the state reached; a task that does not exist has made no request. *)
Definition task_ok (l : list (nat * Event)) (i : nat) (t : option (ec2 unit)) : Prop :=
  match t with
  | Some t =>
      exists m, accepts deltaT mt0 (requests_of (S i) l) = Some m /\
                obeys deltaT good PP (fun _ _ => True) m t
  | None => requests_of (S i) l = []
  end.

(** The process has crashed only if [PP]; the main goroutine has made
    requests its monitor accepts, has started a prefix of [tasks], and
    obeys its monitor for the rest; so does every task. *)
Definition invariant (s : process W R) : Prop :=
  (crashed s = true -> PP) /\
  (exists m todo,
      accepts delta1 m10 (requests_of 0 (log s)) = Some m /\
      (launched s ++ todo)%list = tasks /\
      obeys_main deltaT mt0 delta1 good PP PR m todo (mainG s)) /\
  (forall i, task_ok (log s) i (nth_error (pool s) i)).

(** A bound on the steps the process can still take. *)
Definition terminating (n : nat) (s : process W R) : Prop :=
  crashed s = true \/
  exists a bs, within_main (mainG s) a /\ Forall2 within (pool s) bs /\
               a + list_sum bs <= n.
End Invariant.

Arguments task_ok {Mt} deltaT mt0 good PP l i t.
Arguments invariant {W Mt} deltaT mt0 {M1} delta1 m10 good PP {R} PR tasks s.
Arguments terminating {W R} n s.

(** ** The monitors of the migration *)

Definition knownStatus (status : string) : bool :=
  existsb (String.eqb status)
          ["skipped"; "in-progress"; "failed"; "warning"; "completed"].

(** The tags of a status write: the audit triple with a known status. *)
Definition isAuditTriple (tags : list Tag) : bool :=
  match tags with
  | [mkTag (Some k1) (Some status); mkTag (Some k2) (Some _); mkTag (Some k3) (Some _)] =>
      (k1 =? "ami-migrate-status") && (k2 =? "ami-migrate-message")
      && (k3 =? "ami-migrate-timestamp") && knownStatus status
  | _ => false
  end.

(** The tags of a tag copy: none has the status key. *)
Definition carriesNoStatus (tags : list Tag) : bool :=
  forallb (fun tag => negb (ToString (Key tag) =? "ami-migrate-status")) tags.

Definition tagsAllowed (q : Request) : bool :=
  match q with
  | CreateTags input =>
      isAuditTriple (TagsToCreate input) || carriesNoStatus (TagsToCreate input)
  | _ => true
  end.

Definition isStart (q : Request) : bool :=
  match q with
  | StartInstances _ | InstanceRunningWaiter _ => true
  | _ => false
  end.

Definition isStop (q : Request) : bool :=
  match q with
  | StopInstances _ | InstanceStoppedWaiter _ => true
  | _ => false
  end.

(** The monitor of a task.  Its state tells whether the replacement has
    been requested.  It rejects a start of an instance, a stop after the
    replacement was requested, and a [CreateTags] that is neither a
    status write nor a tag copy. *)
Definition discipline (replaced : bool) (q : Request) : option bool :=
  if isStart q then None
  else if isStop q && replaced then None
  else if negb (tagsAllowed q) then None
  else Some (isRunInstances q || replaced).

(** The monitor of the main goroutine: the discipline of a goroutine
    that replaces nothing; its state is the status writes made so far,
    latest first. *)
Definition recording (m : list Audit) (q : Request) : option (list Audit) :=
  match discipline false q with
  | Some false => Some (auditOf q ++ m)%list
  | _ => None
  end.

(** What [MigrateInstances] is to do with the instances it fetched: the
    tasks it starts and the instances it records as skipped. *)
Definition eligible (instance : Instance) : bool := fst (shouldMigrateInstance instance).

Definition expectedTasks (newAMI : string) (instances : list Instance) : list (ec2 unit) :=
  map (fun instance =>
         migrateTask newAMI instance (snd (shouldMigrateInstance instance)))
      (filter eligible instances).

Definition skippedAudit (instance : Instance) : Audit :=
  ([ToString (InstanceId instance)], "skipped", skippedMessage).

Definition expectedSkips (instances : list Instance) : list Audit :=
  map skippedAudit (filter (fun instance => negb (eligible instance)) instances).

(** Bounds on the steps of a task and of the main goroutine. *)
Definition taskBound (instance : Instance) : nat :=
  length (BlockDeviceMappings instance) + 13.

Fixpoint loopBound (instances : list Instance) : nat :=
  match instances with
  | [] => 0
  | instance :: rest => taskBound instance + 2 + loopBound rest
  end.

(** The request of the eligibility query. *)
Definition fetchRequest (enabledValue : string) : Request :=
  DescribeInstances [mkFilter (Some "tag:ami-migrate") [enabledValue]].

(** The instances a provider's answer to the query holds. *)
Definition fetched (r : result (list Reservation)) : result (list Instance) :=
  match r with
  | Err err => Err err
  | Ok reservations => Ok (appendReservations [] reservations)
  end.

(** What the monitor of the main goroutine allows when [MigrateInstances]
    returns [e], given the outcome [r] of the eligibility query: the
    status writes made are [m], latest first. *)
Definition allowed (r : result (list Instance)) (m : list Audit)
    (e : option error) : Prop :=
  match r with
  | Ok instances => e = None /\ m = rev (expectedSkips instances)
  | Err err => e = Some (Errorf_w "fetch instances: " err) /\ m = []
  end.

Definition tasksOf (newAMI : string) (r : result (list Instance)) : list (ec2 unit) :=
  match r with
  | Ok instances => expectedTasks newAMI instances
  | Err _ => []
  end.

Definition migrateBound (r : result (list Instance)) : nat :=
  match r with
  | Ok instances => loopBound instances + 1
  | Err _ => 0
  end.

(** The process once the eligibility query has been answered. *)
Definition fetchedProcess {W : Type}
    (handle : W -> forall q : Request, W * Response q) (w : W)
    (newAMI enabledValue : string) : process W (option error) :=
  let q := fetchRequest enabledValue in
  mkProcess (fst (handle w q)) (afterFetch newAMI (fetched (snd (handle w q))))
            [] [] [(0, mkEvent q (answer_of q (snd (handle w q))))] false.

(** The calls that change something at the provider. *)
Definition isMutation (q : Request) : bool :=
  match q with
  | CreateTags _ | CreateSnapshot _ | RunInstances _ | TerminateInstances _
  | StopInstances _ | StartInstances _ => true
  | _ => false
  end.

Definition knownStatuses : list string :=
  ["skipped"; "in-progress"; "failed"; "warning"; "completed"].

(** Three instances, of which [i-1] is not eligible. *)
Definition scenarioFleet : Script := mkScript [i1; i2; i3] [] [iNew] (Some "vol-b").

Definition scenarioEmpty : Script := mkScript [] [] [] None.

(** ** The runs of [upgradeInstance] *)

Definition isTerminate (q : Request) : bool :=
  match q with
  | TerminateInstances _ => true
  | _ => false
  end.

(** The events of a successful stop of a running instance; none for an
    instance in another state. *)
Definition stopPrelude (instance : Instance) : list Event :=
  if Name (State instance) =? InstanceStateNameRunning
  then [ mkEvent (StopInstances [ToString (InstanceId instance)]) ADone;
         mkEvent (InstanceStoppedWaiter [ToString (InstanceId instance)]) ADone ]
  else [].

(** What precedes the launch of the replacement: every EBS device
    snapshotted, and the instance stopped if it was running. *)
Definition upgradePrelude (instance : Instance) : list Event :=
  (map (snapshotEvent instance ADone) (ebsDevices (BlockDeviceMappings instance))
   ++ stopPrelude instance)%list.

Definition runEvent (newAMI : string) (instance : Instance) (a : Answer) : Event :=
  mkEvent (RunInstances (runInput newAMI instance)) a.

Definition terminateEvent (instance : Instance) (a : Answer) : Event :=
  mkEvent (TerminateInstances [ToString (InstanceId instance)]) a.

Definition copyEvent (instance newInstance : Instance) (a : Answer) : Event :=
  mkEvent (CreateTags (mkCreateTagsInput [ToString (InstanceId newInstance)]
                         (tagsToCopy (Tags instance)))) a.

(** The context [upgradeInstance] wraps the error of a failed call in. *)
Definition stagePrefix (q : Request) : string :=
  match q with
  | CreateSnapshot _ => "create snapshot: "
  | StopInstances _ | InstanceStoppedWaiter _ => "stop instance: "
  | RunInstances _ => "run instances: "
  | TerminateInstances _ => "terminate instance: "
  | _ => "copy tags: "
  end.

(** The eight ways [upgradeInstance] can run: its events and its
    outcome. *)
Inductive upgradeRun (newAMI : string) (instance : Instance)
  : list Event -> outcome (option error) -> Prop :=
| SnapshotFails pre ebs post err evs :
    ebsDevices (BlockDeviceMappings instance) = (pre ++ ebs :: post)%list ->
    evs = (map (snapshotEvent instance ADone) pre
           ++ [snapshotEvent instance (AErr err) ebs])%list ->
    upgradeRun newAMI instance evs
      (Returned (Some (Errorf_w "create snapshot: " err)))
| StopFails err evs :
    Name (State instance) = InstanceStateNameRunning ->
    evs = (map (snapshotEvent instance ADone)
               (ebsDevices (BlockDeviceMappings instance))
           ++ [mkEvent (StopInstances [ToString (InstanceId instance)]) (AErr err)])%list ->
    upgradeRun newAMI instance evs
      (Returned (Some (Errorf_w "stop instance: " err)))
| StopWaitFails err evs :
    Name (State instance) = InstanceStateNameRunning ->
    evs = (map (snapshotEvent instance ADone)
               (ebsDevices (BlockDeviceMappings instance))
           ++ [mkEvent (StopInstances [ToString (InstanceId instance)]) ADone;
               mkEvent (InstanceStoppedWaiter [ToString (InstanceId instance)])
                       (AErr err)])%list ->
    upgradeRun newAMI instance evs
      (Returned (Some (Errorf_w "stop instance: " err)))
| RunFails err evs :
    evs = (upgradePrelude instance ++ [runEvent newAMI instance (AErr err)])%list ->
    upgradeRun newAMI instance evs
      (Returned (Some (Errorf_w "run instances: " err)))
| TerminateFails news err evs :
    evs = (upgradePrelude instance
           ++ [runEvent newAMI instance (AInstances news);
               terminateEvent instance (AErr err)])%list ->
    upgradeRun newAMI instance evs
      (Returned (Some (Errorf_w "terminate instance: " err)))
| LaunchedNothing msg evs :
    evs = (upgradePrelude instance
           ++ [runEvent newAMI instance (AInstances []);
               terminateEvent instance ADone])%list ->
    upgradeRun newAMI instance evs (Panicked msg)
| CopyFails newInstance more err evs :
    evs = (upgradePrelude instance
           ++ [runEvent newAMI instance (AInstances (newInstance :: more));
               terminateEvent instance ADone;
               copyEvent instance newInstance (AErr err)])%list ->
    upgradeRun newAMI instance evs
      (Returned (Some (Errorf_w "copy tags: " err)))
| Upgraded newInstance more evs :
    evs = (upgradePrelude instance
           ++ [runEvent newAMI instance (AInstances (newInstance :: more));
               terminateEvent instance ADone;
               copyEvent instance newInstance ADone])%list ->
    upgradeRun newAMI instance evs (Returned None).

(** [i-3] is running with both markers; the provider launches [i-new]. *)
Definition scenario3 : Script := mkScript [i3] [] [iNew] None.

(** A provider whose launches succeed with no instance. *)
Definition scenarioNoLaunch : Script := mkScript [i2] [] [] None.

(** The main goroutine has no task to wait for: [pending] tells whether
    it has started a task since it last waited. *)
Fixpoint joined {R : Type} (pending : bool) (p : goroutine R) : Prop :=
  match p with
  | Ret _ => pending = false
  | Panic _ => True
  | Vis g k =>
      match g return (GoResponse g -> goroutine R) -> Prop with
      | Call q => fun k => forall x : Response q, joined pending (k x)
      | Go _ => fun k => joined true (k tt)
      | WaitGroupWait => fun k => joined false (k tt)
      end k
  end.

(** The answers a [CreateTags] call can get. *)
Definition doneOrFailed (a : Answer) : Prop :=
  match a with
  | AErr _ | ADone => True
  | _ => False
  end.

(** The calls that read the state of the provider. *)
Definition isQuery (q : Request) : bool :=
  match q with
  | DescribeImages _ | DescribeInstances _ => true
  | _ => false
  end.

(** The monitor of a goroutine that queries the instances first and
    never queries again. *)
Definition queriesOnce (queried : bool) (q : Request) : option bool :=
  match q with
  | DescribeInstances _ => if queried then None else Some true
  | DescribeImages _ => None
  | _ => if queried then Some true else None
  end.

(** ** A fleet with nothing to migrate *)

(** The requests of a status write [skipped] with the message of
    [MigrateInstances]: the reading of the clock and the [CreateTags] of
    the audit triple. *)
Definition isSkipWrite (q : Request) : bool :=
  match q with
  | NowUTCFormat _ => true
  | CreateTags _ =>
      match auditOf q with
      | [(_, status, message)] => (status =? "skipped") && (message =? skippedMessage)
      | _ => false
      end
  | _ => false
  end.

(** A main goroutine that from here on only writes [skipped]: it starts
    no task and does not panic. *)
Fixpoint onlySkips {R : Type} (p : goroutine R) : Prop :=
  match p with
  | Ret _ => True
  | Panic _ => False
  | Vis g k =>
      match g return (GoResponse g -> goroutine R) -> Prop with
      | Call q => fun k => isSkipWrite q = true /\ forall x : Response q, onlySkips (k x)
      | Go _ => fun _ => False
      | WaitGroupWait => fun k => onlySkips (k tt)
      end k
  end.

(** A process in which only the main goroutine has run, and has only
    written [skipped] since the event [first]. *)
Definition skipping {W R : Type} (first : nat * Event) (s : process W R) : Prop :=
  crashed s = false /\ pool s = [] /\ launched s = [] /\ onlySkips (mainG s) /\
  exists l, log s = first :: l /\
            Forall (fun e => fst e = 0 /\ isSkipWrite (request (snd e)) = true) l.

(** One instance, [i-1], which is running without the second marker. *)
Definition scenarioIneligible : Script := mkScript [i1] [] [iNew] None.


(** * Properties *)

(** ** Wrapped errors *)

Lemma Errorf_w_wraps (prefix : string) (err : error) :
  Error (Errorf_w prefix err) = prefix ++ Error err /\
  Unwrap (Errorf_w prefix err) = Some err.
Proof. split; reflexivity. Qed.

(** ** The eligibility decision *)

Lemma hasIfRunningTag_spec (tags : list Tag) :
  hasIfRunningTag tags = true <->
  exists tag, In tag tags /\
              ToString (Key tag) = "ami-migrate-if-running" /\
              ToString (Value tag) = "enabled".
Proof.
  induction tags as [|t rest IH]; simpl.
  - split; [discriminate | intros (tag & [] & _)].
  - destruct (ToString (Key t) =? "ami-migrate-if-running") eqn:Ek;
      destruct (ToString (Value t) =? "enabled") eqn:Ev; simpl.
    + split; [intros _ | reflexivity].
      exists t. apply String.eqb_eq in Ek, Ev. auto.
    + rewrite IH. apply String.eqb_neq in Ev.
      split; intros (tag & Hin & Hk & Hv).
      * exists tag; auto.
      * destruct Hin as [<- | Hin]; [contradiction | exists tag; auto].
    + rewrite IH. apply String.eqb_neq in Ek.
      split; intros (tag & Hin & Hk & Hv).
      * exists tag; auto.
      * destruct Hin as [<- | Hin]; [contradiction | exists tag; auto].
    + rewrite IH. apply String.eqb_neq in Ek.
      split; intros (tag & Hin & Hk & Hv).
      * exists tag; auto.
      * destruct Hin as [<- | Hin]; [contradiction | exists tag; auto].
Qed.

(** C2.  A running instance is eligible exactly when it carries the tag
    [ami-migrate-if-running] with value [enabled], and without that tag
    it is not eligible; an instance in any other state is eligible
    unconditionally; the decision is then [(true, false)]. *)
Theorem shouldMigrateInstance_decision (instance : Instance) :
  let carries :=
    exists tag, In tag (Tags instance) /\
                ToString (Key tag) = "ami-migrate-if-running" /\
                ToString (Value tag) = "enabled" in
  (Name (State instance) = "running" ->
     (shouldMigrateInstance instance = (true, false) <-> carries) /\
     (~ carries -> shouldMigrateInstance instance = (false, false))) /\
  (Name (State instance) <> "running" ->
     shouldMigrateInstance instance = (true, false)).
Proof.
  cbv zeta. unfold shouldMigrateInstance, InstanceStateNameRunning.
  split; intros Hst.
  - apply String.eqb_eq in Hst. rewrite Hst.
    pose proof (hasIfRunningTag_spec (Tags instance)) as Hspec.
    destruct (hasIfRunningTag (Tags instance)); split.
    + split; [intros _; apply Hspec; reflexivity | reflexivity].
    + intros Hn. exfalso. apply Hn, Hspec. reflexivity.
    + split; [discriminate | intros Hc; apply Hspec in Hc; discriminate].
    + reflexivity.
  - apply String.eqb_neq in Hst. rewrite Hst. reflexivity.
Qed.

Example shouldMigrateInstance_scenarios :
  shouldMigrateInstance i1 = (false, false) /\
  shouldMigrateInstance i2 = (true, false) /\
  shouldMigrateInstance i3 = (true, false).
Proof. repeat split. Qed.

(** ** Running one goroutine *)

Section Exec.
Context {W : Type}.
Variable handle : W -> forall q : Request, W * Response q.

Lemma exec_bind {R S : Type} (p : ec2 R) (f : R -> ec2 S) (w : W) :
  exec handle (bind p f) w =
  match exec handle p w with
  | (w1, evs1, Returned r) =>
      match exec handle (f r) w1 with
      | (w2, evs2, o) => (w2, (evs1 ++ evs2)%list, o)
      end
  | (w1, evs1, Panicked msg) => (w1, evs1, Panicked msg)
  end.
Proof.
  revert w. induction p as [r | q k IH | msg]; intros w; simpl.
  - destruct (exec handle (f r) w) as [[w2 evs2] o]. reflexivity.
  - destruct (handle w q) as [w1 x]. rewrite IH.
    destruct (exec handle (k x) w1) as [[w2 evs] [r | msg]].
    + destruct (exec handle (f r) w2) as [[w3 evs3] o]. reflexivity.
    + reflexivity.
  - reflexivity.
Qed.

Lemma exec_call (q : Request) (w : W) :
  exec handle (call q) w =
  (fst (handle w q), [mkEvent q (answer_of q (snd (handle w q)))],
   Returned (snd (handle w q))).
Proof. simpl. destruct (handle w q) as [w1 x]. reflexivity. Qed.
End Exec.

(** ** Image lookup *)

(** C10.  [GetAMIWithTag] asks the provider once; when the provider
    succeeds with no image it returns the empty string and a nil error,
    and when it succeeds with images it returns the first identifier and
    a nil error: the error value is nil in both cases. *)
Theorem GetAMIWithTag_no_image (W : Type)
    (handle : W -> forall q : Request, W * Response q)
    (w : W) (tagKey tagValue : string) :
  let q := DescribeImages [mkFilter (Some ("tag:" ++ tagKey)) [tagValue]] in
  map request (events handle (GetAMIWithTag tagKey tagValue) w) = [q] /\
  result_of handle (GetAMIWithTag tagKey tagValue) w =
  Returned
    match snd (handle w q) with
    | Ok [] => ("", None)
    | Ok (image :: _) => (ToString (ImageId image), None)
    | Err err => ("", Some (Errorf_w "describe images: " err))
    end.
Proof.
  cbv zeta. unfold events, result_of, GetAMIWithTag. simpl.
  destruct (handle w _) as [w1 [[|image rest] | err]]; simpl; split; reflexivity.
Qed.

Example GetAMIWithTag_empty_catalogue :
  result_of (scripted (mkScript [] [] [] None)) (GetAMIWithTag "Version" "latest") 0
  = Returned ("", None).
Proof. reflexivity. Qed.

(** ** Tag copy *)

Lemma tagsToCopy_filter (tags : list Tag) :
  tagsToCopy tags =
  filter (fun tag => negb (ToString (Key tag) =? "ami-migrate-status")) tags.
Proof.
  induction tags as [|t rest IH]; simpl; [reflexivity|].
  destruct (ToString (Key t) =? "ami-migrate-status"); simpl; congruence.
Qed.

Lemma tagsToCopy_In (tags : list Tag) (tag : Tag) :
  In tag (tagsToCopy tags) <->
  In tag tags /\ ToString (Key tag) <> "ami-migrate-status".
Proof.
  rewrite tagsToCopy_filter, filter_In, negb_true_iff, String.eqb_neq.
  reflexivity.
Qed.

(** C4.  [copyTags] sends one [CreateTags] for the replacement instance
    whose tags are the source's tags, in order and unchanged, without
    those whose key is [ami-migrate-status]; in particular the tags
    [ami-migrate] and [ami-migrate-if-running] are carried over and no
    tag with the status key is. *)
Theorem copyTags_carries_all_but_status (W : Type)
    (handle : W -> forall q : Request, W * Response q)
    (w : W) (oldInstance newInstance : Instance) :
  let copied := tagsToCopy (Tags oldInstance) in
  map request (events handle (copyTags oldInstance newInstance) w) =
    [CreateTags (mkCreateTagsInput [ToString (InstanceId newInstance)] copied)] /\
  copied = filter (fun tag => negb (ToString (Key tag) =? "ami-migrate-status"))
                  (Tags oldInstance) /\
  (forall tag, In tag copied <->
               In tag (Tags oldInstance) /\
               ToString (Key tag) <> "ami-migrate-status") /\
  (forall tag, In tag (Tags oldInstance) ->
               ToString (Key tag) = "ami-migrate" \/
               ToString (Key tag) = "ami-migrate-if-running" ->
               In tag copied) /\
  (forall tag, In tag copied -> ToString (Key tag) <> "ami-migrate-status").
Proof.
  cbv zeta. split; [|split; [|split; [|split]]].
  - unfold events, copyTags. simpl. destruct (handle w _) as [w1 x]. reflexivity.
  - apply tagsToCopy_filter.
  - intros tag. apply tagsToCopy_In.
  - intros tag Hin [Hk | Hk]; apply tagsToCopy_In; split; trivial;
      rewrite Hk; discriminate.
  - intros tag Hin. apply tagsToCopy_In in Hin. tauto.
Qed.

Example copyTags_scenario :
  map request (events (scripted (mkScript [] [] [iNew] None)) (copyTags i2 iNew) 0) =
  [CreateTags (mkCreateTagsInput ["i-new"]
                 [enabledTag; mkTag (Some "Name") (Some "db")])].
Proof. reflexivity. Qed.

(** ** Monitors and [exec] *)

Section ObeysExec.
Context {W : Type}.
Variable handle : W -> forall q : Request, W * Response q.
Variable M : Type.
Variable delta : M -> Request -> option M.
Variable good : forall q : Request, Response q -> Prop.
Variable PP : Prop.
Hypothesis handle_good : forall w q, good q (snd (handle w q)).

Lemma obeys_bind {R S : Type} (PR : M -> R -> Prop) (PS : M -> S -> Prop)
    (p : ec2 R) (f : R -> ec2 S) (m : M) :
  obeys delta good PP PR m p ->
  (forall m1 r, PR m1 r -> obeys delta good PP PS m1 (f r)) ->
  obeys delta good PP PS m (bind p f).
Proof.
  revert m. induction p as [r | q k IH | msg]; intros m Hp Hf; simpl in *.
  - auto.
  - destruct (delta m q) as [m1|]; [|contradiction].
    intros x Hx. apply IH; auto.
  - assumption.
Qed.

Lemma obeys_weaken {R : Type} (PR PR' : M -> R -> Prop) (p : ec2 R) (m : M) :
  obeys delta good PP PR m p ->
  (forall m1 r, PR m1 r -> PR' m1 r) ->
  obeys delta good PP PR' m p.
Proof.
  revert m. induction p as [r | q k IH | msg]; intros m Hp Hf; simpl in *.
  - auto.
  - destruct (delta m q) as [m1|]; [|contradiction].
    intros x Hx. apply IH; auto.
  - assumption.
Qed.

(** A goroutine that obeys a monitor, run alone: its requests are
    accepted, and its outcome is allowed in the state reached. *)
Lemma obeys_exec {R : Type} (PR : M -> R -> Prop) (p : ec2 R) (m : M) (w : W) :
  obeys delta good PP PR m p ->
  exists m1, accepts delta m (map request (events handle p w)) = Some m1 /\
             match result_of handle p w with
             | Returned r => PR m1 r
             | Panicked _ => PP
             end.
Proof.
  unfold events, result_of.
  revert m w. induction p as [r | q k IH | msg]; intros m w Hp; simpl in *.
  - exists m. auto.
  - destruct (delta m q) as [m1|] eqn:Hd; [|contradiction].
    pose proof (handle_good w q) as Hg.
    destruct (handle w q) as [w1 x]. simpl in Hg.
    destruct (IH x m1 w1 (Hp x Hg)) as (m2 & Hacc & Hres).
    destruct (exec handle (k x) w1) as [[w2 evs] o]. simpl in *.
    rewrite Hd. exists m2. auto.
  - exists m. auto.
Qed.
End ObeysExec.

Lemma accepts_rejecting (bad : Request -> bool) (qs : list Request) (m m1 : unit) :
  accepts (rejecting bad) m qs = Some m1 ->
  Forall (fun q => bad q = false) qs.
Proof.
  revert m. induction qs as [|q rest IH]; intros m H; simpl in *.
  - constructor.
  - unfold rejecting in H at 1. destruct (bad q) eqn:Hb; [discriminate|].
    constructor; eauto.
Qed.

(** ** The stages of a task, run alone *)

Section Stages.
Context {W : Type}.
Variable handle : W -> forall q : Request, W * Response q.

Lemma exec_tagInstanceStatus (instance : Instance) (status message : string) (w : W) :
  exists w1 a r,
    exec handle (tagInstanceStatus instance status message) w =
    (w1, statusEvents instance status message
           (snd (handle w (NowUTCFormat RFC3339))) a, Returned r) /\
    match a with AErr _ => r <> None | ADone => r = None | _ => False end.
Proof.
  unfold tagInstanceStatus, statusEvents. simpl.
  destruct (handle w (NowUTCFormat RFC3339)) as [w1 now]. simpl.
  destruct (handle w1 _) as [w2 [u | e]]; simpl.
  - exists w2, ADone, None. auto.
  - exists w2, (AErr e), (Some e). split; [reflexivity | discriminate].
Qed.

(** The snapshot loop either snapshots every EBS device, or stops at the
    first device whose snapshot fails and returns the wrapped error. *)
Lemma exec_snapshotVolumes (instance : Instance)
    (mappings : list InstanceBlockDeviceMapping) (w : W) :
  exists w1 evs o, exec handle (snapshotVolumes instance mappings) w = (w1, evs, o) /\
    ((evs = map (snapshotEvent instance ADone) (ebsDevices mappings) /\
      o = Returned None) \/
     (exists pre ebs post err,
        ebsDevices mappings = (pre ++ ebs :: post)%list /\
        evs = (map (snapshotEvent instance ADone) pre
               ++ [snapshotEvent instance (AErr err) ebs])%list /\
        o = Returned (Some (Errorf_w "create snapshot: " err)))).
Proof.
  revert w. induction mappings as [|mapping rest IH]; intros w; simpl.
  - exists w, [], (Returned None). auto.
  - destruct (Ebs mapping) as [ebs|]; [|apply IH].
    simpl. destruct (handle w _) as [w1 [u | err]]; simpl.
    + destruct (IH w1) as (w2 & evs & o & -> & Hcase).
      do 3 eexists. split; [reflexivity|].
      destruct Hcase as [[-> ->] | (pre & e & post & err & Hd & -> & ->)].
      * left. auto.
      * right. exists (ebs :: pre), e, post, err. rewrite Hd. auto.
    + do 3 eexists. split; [reflexivity|].
      right. exists [], ebs, (ebsDevices rest), err. auto.
Qed.

Lemma replaceInstance_no_snapshot (newAMI : string) (instance : Instance) :
  obeys (rejecting isCreateSnapshot) anyAnswer True (fun _ _ => True) tt
        (replaceInstance newAMI instance).
Proof.
  unfold replaceInstance. simpl. intros [news | e] _; simpl; trivial.
  intros [u | e] _; simpl; trivial.
  destruct news as [|n more]; simpl; trivial.
  intros [u' | e] _; simpl; trivial.
Qed.

Lemma stopInstance_no_snapshot (instance : Instance) :
  obeys (rejecting isCreateSnapshot) anyAnswer True (fun _ _ => True) tt
        (stopInstance instance).
Proof.
  unfold stopInstance. simpl. intros [u | e] _; simpl; trivial.
Qed.

Lemma tagInstanceStatus_no_snapshot (instance : Instance) (status message : string) :
  obeys (rejecting isCreateSnapshot) anyAnswer True (fun _ _ => True) tt
        (tagInstanceStatus instance status message).
Proof.
  unfold tagInstanceStatus. simpl. intros now _. simpl. trivial.
Qed.

Lemma shouldMigrateInstance_needsStart (instance : Instance) :
  snd (shouldMigrateInstance instance) = false.
Proof.
  unfold shouldMigrateInstance.
  destruct (Name (State instance) =? InstanceStateNameRunning); reflexivity.
Qed.


Lemma runs_exec {R : Type} (p : ec2 R) (w : W) :
  runs handle p w (events handle p w) (result_of handle p w) (world_after handle p w).
Proof.
  unfold runs, events, result_of, world_after.
  destruct (exec handle p w) as [[w1 evs] o]. reflexivity.
Qed.

Lemma runs_bind {R S : Type} (p : ec2 R) (f : R -> ec2 S)
    (w : W) (evs : list Event) (o : outcome S) (w2 : W) :
  runs handle (bind p f) w evs o w2 ->
  exists w1 evs1 o1, runs handle p w evs1 o1 w1 /\
    match o1 with
    | Returned r =>
        exists evs2, runs handle (f r) w1 evs2 o w2 /\ evs = (evs1 ++ evs2)%list
    | Panicked msg => o = Panicked msg /\ evs = evs1 /\ w2 = w1
    end.
Proof.
  unfold runs. rewrite exec_bind.
  destruct (exec handle p w) as [[w1 evs1] [r | msg]].
  - destruct (exec handle (f r) w1) as [[w3 evs3] o3] eqn:E.
    intros [= <- <- <-]. exists w1, evs1, (Returned r). split; [reflexivity|].
    exists evs3. auto.
  - intros [= <- <- <-]. exists w1, evs1, (Panicked msg). auto.
Qed.

Lemma runs_ret {R : Type} (r : R) (w : W) (evs : list Event) (o : outcome R) (w1 : W) :
  runs handle (Ret r) w evs o w1 -> evs = [] /\ o = Returned r /\ w1 = w.
Proof. unfold runs. simpl. intros [= <- <- <-]. auto. Qed.

Lemma runs_tagInstanceStatus (instance : Instance) (status message : string)
    (w : W) (evs : list Event) (o : outcome (option error)) (w1 : W) :
  runs handle (tagInstanceStatus instance status message) w evs o w1 ->
  exists a r,
    evs = statusEvents instance status message
            (snd (handle w (NowUTCFormat RFC3339))) a /\
    o = Returned r /\
    match a with AErr _ => True | ADone => True | _ => False end.
Proof.
  unfold runs. intros H.
  destruct (exec_tagInstanceStatus instance status message w)
    as (w2 & a & r & E & Ha).
  rewrite E in H. injection H as <- <- <-.
  exists a, r. repeat split. destruct a; auto.
Qed.

Lemma runs_snapshotVolumes (instance : Instance)
    (mappings : list InstanceBlockDeviceMapping)
    (w : W) (evs : list Event) (o : outcome (option error)) (w1 : W) :
  runs handle (snapshotVolumes instance mappings) w evs o w1 ->
  (evs = map (snapshotEvent instance ADone) (ebsDevices mappings) /\
   o = Returned None) \/
  (exists pre ebs post err,
     ebsDevices mappings = (pre ++ ebs :: post)%list /\
     evs = (map (snapshotEvent instance ADone) pre
            ++ [snapshotEvent instance (AErr err) ebs])%list /\
     o = Returned (Some (Errorf_w "create snapshot: " err))).
Proof.
  unfold runs. intros H.
  destruct (exec_snapshotVolumes instance mappings w)
    as (w2 & evs2 & o2 & E & Hcase).
  rewrite E in H. injection H as <- <- <-. exact Hcase.
Qed.

(** [replaceInstance] either launches, terminates and copies the tags,
    or one of its calls failed or launched nothing. *)
Lemma runs_replaceInstance (newAMI : string) (instance : Instance)
    (w : W) (evs : list Event) (o : outcome (option error)) (w1 : W) :
  runs handle (replaceInstance newAMI instance) w evs o w1 ->
  (exists newInstance more,
     evs = [ mkEvent (RunInstances (runInput newAMI instance))
                     (AInstances (newInstance :: more));
             mkEvent (TerminateInstances [ToString (InstanceId instance)]) ADone;
             mkEvent (CreateTags (mkCreateTagsInput
                                    [ToString (InstanceId newInstance)]
                                    (tagsToCopy (Tags instance)))) ADone ] /\
     o = Returned None) \/
  (exists ev, In ev evs /\ (~ succeeded ev \/ ~ launched_one ev)).
Proof.
  unfold runs, replaceInstance. simpl.
  destruct (handle w _) as [w2 [news | e]]; simpl.
  2:{ intros [= <- <- <-]. right. eexists. split; [left; reflexivity|].
      left. discriminate. }
  destruct (handle w2 _) as [w3 [u | e]]; simpl.
  2:{ intros [= <- <- <-]. right. eexists. split; [right; left; reflexivity|].
      left. discriminate. }
  destruct news as [|n more]; simpl.
  { intros [= <- <- <-]. right. eexists. split; [left; reflexivity|].
    right. unfold launched_one. simpl. tauto. }
  destruct (handle w3 _) as [w4 [u' | e]]; simpl; intros [= <- <- <-].
  - left. exists n, more. auto.
  - right. eexists. split; [right; right; left; reflexivity|]. left. discriminate.
Qed.
End Stages.

(** ** The task of a stopped instance *)

Ltac contradict_log H :=
  exfalso; unfold statusEvents, snapshotEvent in H;
  repeat (rewrite Forall_app in H || rewrite Forall_cons_iff in H);
  unfold succeeded, launched_one, failure in H; cbn [answer] in H;
  intuition congruence.

(** C3 (as amended).  The task of an instance that is not running and
    has the EBS devices [va] and [vb], when every call succeeds and
    [RunInstances] launches an instance, makes exactly these requests in
    this order: the [in-progress] status write on the source, the two
    [CreateSnapshot] calls, one [RunInstances] with the new image and the
    source's instance type, [TerminateInstances] on the source,
    [CreateTags] on the new instance with the source's tags but the
    status tag, and the [completed] status write, which is made on the
    source instance's id. *)
Theorem migrateTask_stopped_two_volumes (W : Type)
    (handle : W -> forall q : Request, W * Response q) (w : W)
    (newAMI : string) (instance : Instance) (va vb : EbsInstanceBlockDevice) :
  let task := migrateTask newAMI instance (snd (shouldMigrateInstance instance)) in
  let id := ToString (InstanceId instance) in
  Name (State instance) <> "running" ->
  ebsDevices (BlockDeviceMappings instance) = [va; vb] ->
  Forall succeeded (events handle task w) ->
  Forall launched_one (events handle task w) ->
  exists now1 now2 newInstance more,
    events handle task w =
      (statusEvents instance "in-progress" "Starting migration" now1 ADone
       ++ [ snapshotEvent instance ADone va;
            snapshotEvent instance ADone vb;
            mkEvent (RunInstances (runInput newAMI instance))
                    (AInstances (newInstance :: more));
            mkEvent (TerminateInstances [id]) ADone;
            mkEvent (CreateTags (mkCreateTagsInput
                                   [ToString (InstanceId newInstance)]
                                   (tagsToCopy (Tags instance)))) ADone ]
       ++ statusEvents instance "completed" "Migration completed successfully"
            now2 ADone)%list /\
    result_of handle task w = Returned tt.
Proof.
  cbv zeta. rewrite shouldMigrateInstance_needsStart.
  intros Hst Hebs Hok Hone.
  pose proof (runs_exec handle (migrateTask newAMI instance false) w) as H.
  revert Hok Hone H.
  generalize (events handle (migrateTask newAMI instance false) w) as evs.
  generalize (result_of handle (migrateTask newAMI instance false) w) as o.
  generalize (world_after handle (migrateTask newAMI instance false) w) as w9.
  intros w9 o evs Hok Hone H.
  apply String.eqb_neq in Hst.
  unfold migrateTask, upgradeTask, upgradeInstance, completeTask in H.
  cbn [andb] in H. unfold InstanceStateNameRunning in H. rewrite Hst in H.
  apply runs_bind in H. destruct H as (w1 & evs1 & o1 & H1 & H).
  apply runs_tagInstanceStatus in H1. destruct H1 as (a1 & r1 & -> & -> & Ha1).
  destruct H as (evs2 & H & ->).
  apply runs_bind in H. destruct H as (w2 & evsU & oU & HU & H).
  apply runs_bind in HU. destruct HU as (w3 & evsS & oS & HS & HU).
  apply runs_snapshotVolumes in HS. rewrite Hebs in HS.
  destruct HS as [[-> ->] | (pre & e & post & err & Hd & -> & ->)].
  2:{ destruct HU as (evs3 & HU & ->). apply runs_ret in HU.
      destruct HU as (-> & -> & ->). destruct H as (evs4 & H & ->).
      contradict_log Hok. }
  destruct HU as (evsR & HR & ->).
  apply runs_replaceInstance in HR.
  destruct HR as [(n & more & -> & ->) | (ev & Hin & Hbad)].
  2:{ exfalso. rewrite Forall_forall in Hok, Hone.
      destruct oU as [r|msg].
      - destruct H as (evs4 & _ & ->).
        destruct Hbad as [Hb | Hb]; apply Hb; [apply Hok | apply Hone];
          rewrite !in_app_iff; auto 10.
      - destruct H as (_ & -> & _).
        destruct Hbad as [Hb | Hb]; apply Hb; [apply Hok | apply Hone];
          rewrite !in_app_iff; auto 10. }
  destruct H as (evs4 & H & ->).
  apply runs_bind in H. destruct H as (w5 & evs5 & o5 & H5 & H).
  apply runs_tagInstanceStatus in H5. destruct H5 as (a5 & r5 & -> & -> & Ha5).
  destruct H as (evs6 & H & ->). apply runs_ret in H. destruct H as (-> & -> & ->).
  destruct a1; try contradiction; [contradict_log Hok|].
  destruct a5; try contradiction; [contradict_log Hok|].
  do 4 eexists. split; [|reflexivity].
  simpl. reflexivity.
Qed.

Lemma migrateTask_stopped_two_volumes_witness :
  exists now1 now2 newInstance more,
    events (scripted scenario2)
           (migrateTask "ami-new" i2 (snd (shouldMigrateInstance i2))) 0 =
      (statusEvents i2 "in-progress" "Starting migration" now1 ADone
       ++ [ snapshotEvent i2 ADone (mkEbs (Some "vol-a"));
            snapshotEvent i2 ADone (mkEbs (Some "vol-b"));
            mkEvent (RunInstances (runInput "ami-new" i2))
                    (AInstances (newInstance :: more));
            mkEvent (TerminateInstances ["i-2"]) ADone;
            mkEvent (CreateTags (mkCreateTagsInput
                                   [ToString (InstanceId newInstance)]
                                   (tagsToCopy (Tags i2)))) ADone ]
       ++ statusEvents i2 "completed" "Migration completed successfully"
            now2 ADone)%list /\
    result_of (scripted scenario2)
              (migrateTask "ami-new" i2 (snd (shouldMigrateInstance i2))) 0
    = Returned tt.
Proof.
  apply (migrateTask_stopped_two_volumes nat (scripted scenario2) 0 "ami-new" i2
           (mkEbs (Some "vol-a")) (mkEbs (Some "vol-b"))).
  - discriminate.
  - reflexivity.
  - vm_compute. repeat constructor.
  - vm_compute. repeat (constructor; try discriminate).
Defined.

(** C3 as stated fails: in the scenario the [completed] status is
    written on [i-2], the source, and no status is written on [i-new]. *)
Lemma completed_status_is_written_on_source :
  let written :=
    audits (map request
              (events (scripted scenario2)
                 (migrateTask "ami-new" i2 (snd (shouldMigrateInstance i2))) 0)) in
  written = [ (["i-2"], "in-progress", "Starting migration");
              (["i-2"], "completed", "Migration completed successfully") ] /\
  ~ In (["i-new"], "completed", "Migration completed successfully") written.
Proof.
  cbv zeta. split; [reflexivity|].
  vm_compute. intros [H | [H | []]]; discriminate.
Qed.

(** ** A failing snapshot *)

Section SnapshotFailure.
Context {W : Type}.
Variable handle : W -> forall q : Request, W * Response q.

Lemma runs_unique {R : Type} (p : ec2 R) (w : W) (evs : list Event)
    (o : outcome R) (w1 : W) :
  runs handle p w evs o w1 ->
  evs = events handle p w /\ o = result_of handle p w /\
  w1 = world_after handle p w.
Proof.
  unfold runs, events, result_of, world_after. intros ->. auto.
Qed.

Lemma afterSnapshots_no_snapshot (newAMI : string) (instance : Instance) :
  obeys (rejecting isCreateSnapshot) anyAnswer True (fun _ _ => True) tt
    (if Name (State instance) =? InstanceStateNameRunning
     then st <- stopInstance instance ;;
          match st with
          | Some err => Ret (Some (Errorf_w "stop instance: " err))
          | None => replaceInstance newAMI instance
          end
     else replaceInstance newAMI instance).
Proof.
  destruct (Name (State instance) =? InstanceStateNameRunning).
  - eapply obeys_bind; [apply stopInstance_no_snapshot|].
    intros [] [err|] _; [exact I | apply replaceInstance_no_snapshot].
  - apply replaceInstance_no_snapshot.
Qed.

Lemma no_snapshot_in_log {R : Type} (p : ec2 R) (w : W) (evs : list Event)
    (o : outcome R) (w1 : W) (ev : Event) :
  obeys (rejecting isCreateSnapshot) anyAnswer True (fun _ _ => True) tt p ->
  runs handle p w evs o w1 ->
  In ev evs -> isCreateSnapshot (request ev) = false.
Proof.
  intros Hp Hr Hin. apply runs_unique in Hr. destruct Hr as (-> & _ & _).
  destruct (@obeys_exec W handle unit (rejecting isCreateSnapshot) anyAnswer True
              (fun _ _ => I) R (fun _ _ => True) p tt w Hp) as (m1 & Hacc & _).
  apply accepts_rejecting in Hacc. rewrite Forall_forall in Hacc.
  apply Hacc. apply in_map. exact Hin.
Qed.
End SnapshotFailure.

Lemma statusEvents_no_snapshot (instance : Instance) (status message now : string)
    (a : Answer) (ev : Event) :
  In ev (statusEvents instance status message now a) ->
  isCreateSnapshot (request ev) = false /\ isRunInstances (request ev) = false.
Proof. intros [<- | [<- | []]]; auto. Qed.

Lemma snapshotEvent_not_run (instance : Instance) (a : Answer)
    (l : list EbsInstanceBlockDevice) :
  Forall (fun ev => isRunInstances (request ev) = false)
         (map (snapshotEvent instance a) l).
Proof. apply Forall_forall. intros ev Hin. apply in_map_iff in Hin.
  destruct Hin as (e & <- & _). reflexivity. Qed.

Lemma runs_reportUpgrade {W : Type}
    (handle : W -> forall q : Request, W * Response q)
    (inst : Instance) (u : option error)
    (w : W) (evs : list Event) (o : outcome unit) (w1 : W) :
  runs handle
    match u with
    | Some err =>
        tagInstanceStatus inst "failed"
          (Sprintf_v "Failed to upgrade instance: " err) ;;;
        Ret tt
    | None => completeTask inst
    end w evs o w1 ->
  exists a,
    evs = statusEvents inst
            (match u with Some _ => "failed" | None => "completed" end)
            (match u with
             | Some err => Sprintf_v "Failed to upgrade instance: " err
             | None => "Migration completed successfully"
             end)
            (snd (handle w (NowUTCFormat RFC3339))) a /\
    o = Returned tt.
Proof.
  intros H. unfold completeTask in H.
  destruct u as [err|]; apply runs_bind in H;
    destruct H as (w2 & evs2 & o2 & H2 & H);
    apply runs_tagInstanceStatus in H2; destruct H2 as (a & r & -> & -> & _);
    destruct H as (evs3 & H & ->); apply runs_ret in H;
    destruct H as (-> & -> & _); exists a; rewrite app_nil_r; auto.
Qed.

(** C5.  If a [CreateSnapshot] call of a task fails, then it is the
    last call of [upgradeInstance], which has snapshotted the earlier
    devices and returns the provider's error wrapped with
    [create snapshot: ]; the task then writes the status [failed] with
    that error in the message and ends: it never calls [RunInstances],
    and makes no call that would undo the snapshots already taken. *)
Theorem snapshot_failure_fails_task (W : Type)
    (handle : W -> forall q : Request, W * Response q) (w : W)
    (newAMI : string) (instance : Instance)
    (input : CreateSnapshotInput) (err : error) :
  let task := migrateTask newAMI instance (snd (shouldMigrateInstance instance)) in
  let w1 := world_after handle
              (tagInstanceStatus instance "in-progress" "Starting migration") w in
  In (mkEvent (CreateSnapshot input) (AErr err)) (events handle task w) ->
  exists pre ebs post now1 a1 now2 a2,
    ebsDevices (BlockDeviceMappings instance) = (pre ++ ebs :: post)%list /\
    input = snapshotInput instance ebs /\
    events handle (upgradeInstance newAMI instance) w1 =
      (map (snapshotEvent instance ADone) pre
       ++ [snapshotEvent instance (AErr err) ebs])%list /\
    result_of handle (upgradeInstance newAMI instance) w1 =
      Returned (Some (wrapError ("create snapshot: " ++ Error err) err)) /\
    events handle task w =
      (statusEvents instance "in-progress" "Starting migration" now1 a1
       ++ map (snapshotEvent instance ADone) pre
       ++ [snapshotEvent instance (AErr err) ebs]
       ++ statusEvents instance "failed"
            ("Failed to upgrade instance: " ++ "create snapshot: " ++ Error err)
            now2 a2)%list /\
    result_of handle task w = Returned tt /\
    Forall (fun ev => isRunInstances (request ev) = false) (events handle task w).
Proof.
  cbv zeta. rewrite shouldMigrateInstance_needsStart.
  pose proof (runs_exec handle (migrateTask newAMI instance false) w) as H.
  revert H.
  generalize (events handle (migrateTask newAMI instance false) w) as evs.
  generalize (result_of handle (migrateTask newAMI instance false) w) as o.
  generalize (world_after handle (migrateTask newAMI instance false) w) as w9.
  intros w9 o evs H Hin.
  unfold migrateTask, upgradeTask in H. cbn [andb] in H.
  apply runs_bind in H. destruct H as (w1 & evs1 & o1 & H1 & H).
  pose proof (runs_unique handle _ _ _ _ _ H1) as (_ & _ & Hw1).
  apply runs_tagInstanceStatus in H1. destruct H1 as (a1 & r1 & -> & -> & Ha1).
  destruct H as (evs2 & H & ->). rewrite <- Hw1. clear Hw1.
  apply runs_bind in H. destruct H as (w2 & evsU & oU & HU & H).
  pose proof (runs_unique handle _ _ _ _ _ HU) as (HevU & HoU & _).
  rewrite <- HevU, <- HoU. clear HevU HoU.
  unfold upgradeInstance in HU.
  apply runs_bind in HU. destruct HU as (w3 & evsS & oS & HS & HU).
  apply runs_snapshotVolumes in HS.
  destruct HS as [[-> ->] | (pre & e & post & err' & Hd & -> & ->)].
  - (* every snapshot succeeded: no failed snapshot can be in the log *)
    exfalso. destruct HU as (evsR & HR & ->).
    pose proof (no_snapshot_in_log handle _ _ _ _ _
                  (mkEvent (CreateSnapshot input) (AErr err))
                  (afterSnapshots_no_snapshot newAMI instance) HR) as HnoR.
    assert (Htail : In (mkEvent (CreateSnapshot input) (AErr err)) evs2 -> False).
    { destruct oU as [u|msg].
      - destruct H as (evs4 & H & ->). apply runs_reportUpgrade in H.
        destruct H as (a & -> & _). rewrite !in_app_iff.
        intros [[Hev | Hev] | Hev].
        + apply in_map_iff in Hev. destruct Hev as (x & Hx & _). discriminate.
        + apply HnoR in Hev. discriminate.
        + apply statusEvents_no_snapshot in Hev. destruct Hev; discriminate.
      - destruct H as (_ & -> & _). rewrite !in_app_iff. intros [Hev | Hev].
        + apply in_map_iff in Hev. destruct Hev as (x & Hx & _). discriminate.
        + apply HnoR in Hev. discriminate. }
    apply in_app_iff in Hin. destruct Hin as [Hin | Hin]; [|auto].
    apply statusEvents_no_snapshot in Hin. destruct Hin; discriminate.
  - (* the snapshot of [e] failed *)
    destruct HU as (evs3 & HU & ->). apply runs_ret in HU.
    destruct HU as (-> & -> & ->). destruct H as (evs4 & H & ->).
    apply (runs_reportUpgrade handle instance
             (Some (Errorf_w "create snapshot: " err'))) in H.
    destruct H as (a2 & -> & ->).
    assert (input = snapshotInput instance e /\ err = err') as [-> <-].
    { rewrite !in_app_iff in Hin.
      destruct Hin as [Hin | [[[Hin | Hin] | []] | Hin]].
      - apply statusEvents_no_snapshot in Hin. destruct Hin; discriminate.
      - apply in_map_iff in Hin. destruct Hin as (x & Hx & _). discriminate.
      - destruct Hin as [Hin | []]. injection Hin as <- <-. auto.
      - apply statusEvents_no_snapshot in Hin. destruct Hin; discriminate. }
    exists pre, e, post. do 4 eexists.
    split; [exact Hd|]. split; [reflexivity|].
    split; [rewrite app_nil_r; reflexivity|]. split; [reflexivity|].
    split; [rewrite app_nil_r, <- app_assoc; reflexivity|].
    split; [reflexivity|].
    repeat (apply Forall_app; split); try apply snapshotEvent_not_run;
      repeat constructor.
Qed.

Lemma snapshot_failure_fails_task_witness :
  let task := migrateTask "ami-new" i2 (snd (shouldMigrateInstance i2)) in
  In (mkEvent (CreateSnapshot (snapshotInput i2 (mkEbs (Some "vol-b"))))
              (AErr snapshotFailed))
     (events (scripted scenario2Failing) task 0) /\
  result_of (scripted scenario2Failing) task 0 = Returned tt /\
  Forall (fun ev => isRunInstances (request ev) = false)
         (events (scripted scenario2Failing) task 0).
Proof.
  cbv zeta.
  assert (Hin : In (mkEvent (CreateSnapshot (snapshotInput i2 (mkEbs (Some "vol-b"))))
                            (AErr snapshotFailed))
                   (events (scripted scenario2Failing)
                      (migrateTask "ami-new" i2 (snd (shouldMigrateInstance i2))) 0)).
  { vm_compute. right. right. right. left. reflexivity. }
  split; [exact Hin|].
  destruct (snapshot_failure_fails_task nat (scripted scenario2Failing) 0
              "ami-new" i2 _ _ Hin)
    as (pre & ebs & post & now1 & a1 & now2 & a2 & _ & _ & _ & _ & _ & Hres & Hno).
  split; assumption.
Defined.

Example snapshot_failure_scenario :
  map request (events (scripted scenario2Failing)
                 (migrateTask "ami-new" i2 (snd (shouldMigrateInstance i2))) 0) =
  [ NowUTCFormat RFC3339;
    CreateTags (mkCreateTagsInput ["i-2"]
      (statusTags "in-progress" "Starting migration" "2024-05-01T12:00:00Z"));
    CreateSnapshot (snapshotInput i2 (mkEbs (Some "vol-a")));
    CreateSnapshot (snapshotInput i2 (mkEbs (Some "vol-b")));
    NowUTCFormat RFC3339;
    CreateTags (mkCreateTagsInput ["i-2"]
      (statusTags "failed"
         "Failed to upgrade instance: create snapshot: SnapshotCreationPerVolumeRateExceeded"
         "2024-05-01T12:00:00Z")) ].
Proof. reflexivity. Qed.

(** ** Processes: invariants and termination *)

Lemma requests_of_snoc (g h : nat) (ev : Event) (l : list (nat * Event)) :
  requests_of g (l ++ [(h, ev)]) =
  (requests_of g l ++ (if Nat.eqb h g then [request ev] else []))%list.
Proof.
  induction l as [|[h' ev'] rest IH]; simpl.
  - destruct (Nat.eqb h g); reflexivity.
  - rewrite IH. destruct (Nat.eqb h' g); reflexivity.
Qed.

Lemma accepts_snoc {Q M : Type} (delta : M -> Q -> option M) (qs : list Q) (q : Q)
    (m m1 : M) :
  accepts delta m qs = Some m1 ->
  accepts delta m (qs ++ [q]) = delta m1 q.
Proof.
  revert m. induction qs as [|q' rest IH]; intros m; simpl.
  - intros [= ->]. destruct (delta m1 q); reflexivity.
  - destruct (delta m q'); [apply IH | discriminate].
Qed.

Lemma nth_error_replace_nth {A : Type} (l : list A) (i j : nat) (x y : A) :
  nth_error l i = Some y ->
  nth_error (replace_nth i x l) j = if Nat.eqb j i then Some x else nth_error l j.
Proof.
  revert i j. induction l as [|a rest IH]; intros [|i] [|j]; simpl;
    try discriminate; try reflexivity.
  intros H. apply IH. exact H.
Qed.

Section Preservation.
Context {W : Type}.
Variable handle : W -> forall q : Request, W * Response q.
Context {Mt : Type}.
Variable deltaT : Mt -> Request -> option Mt.
Variable mt0 : Mt.
Context {M1 : Type}.
Variable delta1 : M1 -> Request -> option M1.
Variable m10 : M1.
Variable good : forall q : Request, Response q -> Prop.
Variable PP : Prop.
Context {R : Type}.
Variable PR : M1 -> R -> Prop.
Variable tasks : list (ec2 unit).
Hypothesis handle_good : forall w q, good q (snd (handle w q)).

Local Abbreviation inv := (invariant deltaT mt0 delta1 m10 good PP PR tasks).

Lemma step_main_invariant (s : process W R) : inv s -> inv (step_main handle s).
Proof.
  intros Hinv. pose proof Hinv as (Hc & (m & todo & Hacc & Hl & Hob) & Ht).
  unfold step_main. destruct (mainG s) as [r | g k | msg] eqn:Em.
  - exact Hinv.
  - destruct g as [q | task |]; simpl in Hob.
    + destruct (delta1 m q) as [m1|] eqn:Hd; [|contradiction].
      pose proof (handle_good (world s) q) as Hg.
      destruct (handle (world s) q) as [w1 x]. simpl in Hg.
      split; [exact Hc|]. split.
      * exists m1, todo. simpl. rewrite requests_of_snoc. simpl.
        rewrite (accepts_snoc _ _ q _ _ Hacc). auto.
      * intros i. simpl. specialize (Ht i). unfold task_ok in *.
        rewrite requests_of_snoc. simpl. rewrite app_nil_r. exact Ht.
    + destruct Hob as (Htask & Hob). destruct todo as [|t rest]; [contradiction|].
      destruct Hob as (-> & Hob).
      split; [exact Hc|]. split.
      * exists m, rest. simpl. rewrite <- app_assoc. auto.
      * intros i. simpl.
        destruct (Nat.lt_trichotomy i (length (pool s))) as [Hi | [Hi | Hi]].
        -- rewrite nth_error_app1 by exact Hi. apply Ht.
        -- subst i. rewrite nth_error_app2, Nat.sub_diag by lia. simpl.
           pose proof (Ht (length (pool s))) as Hn.
           rewrite (proj2 (nth_error_None _ _)) in Hn by lia. simpl in Hn.
           rewrite Hn. exists mt0. auto.
        -- pose proof (Ht i) as Hn.
           rewrite (proj2 (nth_error_None _ _)) in Hn by lia.
           rewrite (proj2 (nth_error_None _ _)); [exact Hn|].
           rewrite length_app. simpl. lia.
    + destruct (forallb finished (pool s)).
      * split; [exact Hc|]. split; [|exact Ht]. exists m, todo. auto.
      * exact Hinv.
  - simpl in Hob. split; [intros _; exact Hob|]. split; [|exact Ht].
    exists m, todo. simpl. auto.
Qed.

Lemma step_task_invariant (i : nat) (s : process W R) :
  inv s -> inv (step_task handle i s).
Proof.
  intros Hinv. pose proof Hinv as (Hc & (m & todo & Hacc & Hl & Hob) & Ht).
  unfold step_task. destruct (nth_error (pool s) i) as [[r | q k | msg]|] eqn:Ei.
  - exact Hinv.
  - pose proof (Ht i) as Hi. rewrite Ei in Hi. destruct Hi as (mi & Hai & Hoi).
    simpl in Hoi. destruct (deltaT mi q) as [m1|] eqn:Hd; [|contradiction].
    pose proof (handle_good (world s) q) as Hg.
    destruct (handle (world s) q) as [w1 x]. simpl in Hg.
    split; [exact Hc|]. split.
    + exists m, todo. simpl. rewrite requests_of_snoc. simpl.
      rewrite app_nil_r. auto.
    + intros j. simpl. erewrite nth_error_replace_nth; [|exact Ei].
      unfold task_ok. rewrite requests_of_snoc. simpl.
      destruct (Nat.eqb_spec j i) as [-> | Hne].
      * rewrite Nat.eqb_refl. exists m1.
        rewrite (accepts_snoc _ _ q _ _ Hai). auto.
      * destruct (Nat.eqb_spec i j) as [-> | _]; [contradiction|].
        rewrite app_nil_r. apply Ht.
  - pose proof (Ht i) as Hi. rewrite Ei in Hi. destruct Hi as (mi & Hai & Hoi).
    simpl in Hoi. split; [intros _; exact Hoi|]. split; [|exact Ht].
    exists m, todo. auto.
  - exact Hinv.
Qed.

Lemma step_invariant (c : nat) (s : process W R) : inv s -> inv (step handle c s).
Proof.
  intros H. unfold step.
  destruct (nth_error (runnable s) _) as [[|i]|]; simpl.
  - apply step_main_invariant, H.
  - apply step_task_invariant, H.
  - exact H.
Qed.

Lemma run_invariant (schedule : list nat) (s : process W R) :
  inv s -> inv (run handle schedule s).
Proof.
  revert s. induction schedule as [|c rest IH]; intros s H; simpl.
  - exact H.
  - apply IH, step_invariant, H.
Qed.
End Preservation.

Section Termination.
Context {W : Type}.
Variable handle : W -> forall q : Request, W * Response q.
Context {R : Type}.

Lemma step_stuck (c : nat) (s : process W R) : runnable s = [] -> step handle c s = s.
Proof. unfold step. intros ->. destruct (c mod _); reflexivity. Qed.

Lemma run_stuck (schedule : list nat) (s : process W R) :
  runnable s = [] -> run handle schedule s = s.
Proof.
  induction schedule as [|c rest IH]; intros H; simpl; [reflexivity|].
  rewrite step_stuck by exact H. apply IH, H.
Qed.

Lemma in_ready_tasks (g b : nat) (ts : list (ec2 unit)) :
  In g (ready_tasks b ts) ->
  exists i t, g = b + i /\ nth_error ts i = Some t /\ finished t = false.
Proof.
  revert b. induction ts as [|t rest IH]; intros b; simpl; [intros []|].
  destruct (finished t) eqn:Ef.
  - intros H. apply IH in H. destruct H as (i & t' & -> & Hn & Hf).
    exists (S i), t'. repeat split; auto; lia.
  - intros [<- | H].
    + exists 0, t. repeat split; auto.
    + apply IH in H. destruct H as (i & t' & -> & Hn & Hf).
      exists (S i), t'. repeat split; auto; lia.
Qed.

Lemma ready_tasks_nil (b : nat) (ts : list (ec2 unit)) :
  ready_tasks b ts = [] -> forallb finished ts = true.
Proof.
  revert b. induction ts as [|t rest IH]; intros b; simpl; [reflexivity|].
  destruct (finished t); [apply IH | discriminate].
Qed.

(** A process that has not crashed and in which no goroutine can take a
    step has returned from its main goroutine. *)
Lemma settled (s : process W R) :
  runnable s = [] -> crashed s = false -> exists r, returned s = Some r.
Proof.
  unfold runnable, returned, main_ready. intros H Hc. rewrite Hc in *.
  apply app_eq_nil in H. destruct H as (Hm & Ht).
  apply ready_tasks_nil in Ht.
  destruct (mainG s) as [r | [q | t |] k | msg]; try discriminate.
  - exists r. reflexivity.
  - rewrite Ht in Hm. discriminate.
Qed.

Lemma within_replace (ts : list (ec2 unit)) (bs : list nat) (i : nat)
    (q : Request) (k : Response q -> ec2 unit) (x : Response q) :
  Forall2 within ts bs ->
  nth_error ts i = Some (Vis q k) ->
  exists bs', Forall2 within (replace_nth i (k x) ts) bs' /\
              S (list_sum bs') <= list_sum bs.
Proof.
  intros H. revert i. induction H as [|t b ts' bs' Hw H IH]; intros [|i] Hn;
    simpl in *; try discriminate.
  - injection Hn as ->. simpl in Hw. destruct b as [|b1]; [contradiction|].
    exists (b1 :: bs'). split; [constructor; auto|]. simpl. lia.
  - destruct (IH i Hn) as (bs2 & H2 & Hs).
    exists (b :: bs2). split; [constructor; auto|]. simpl. lia.
Qed.

Lemma list_sum_snoc (bs : list nat) (a : nat) : list_sum (bs ++ [a]) = list_sum bs + a.
Proof. rewrite list_sum_app. simpl. lia. Qed.

Lemma step_progress (c n : nat) (s : process W R) :
  runnable s <> [] -> terminating n s ->
  exists n', n' < n /\ terminating n' (step handle c s).
Proof.
  intros Hr Ht. unfold step.
  assert (Hlen : c mod length (runnable s) < length (runnable s)).
  { apply Nat.mod_upper_bound. destruct (runnable s); [contradiction | discriminate]. }
  destruct (nth_error (runnable s) (c mod length (runnable s))) as [g|] eqn:Eg.
  2:{ apply nth_error_None in Eg. lia. }
  apply nth_error_In in Eg. clear Hlen.
  unfold runnable in Eg, Hr. destruct (crashed s) eqn:Ec; [contradiction|].
  destruct Ht as [Ht | (a & bs & Hm & Hts & Hle)]; [congruence|].
  apply in_app_iff in Eg. destruct Eg as [Eg | Eg].
  - (* the main goroutine *)
    destruct (main_ready s) eqn:Er; [|contradiction].
    destruct Eg as [<- | []]. simpl. unfold step_main. unfold main_ready in Er.
    destruct (mainG s) as [r | [q | t |] k | msg]; simpl in Hm; try discriminate.
    + destruct a as [|a1]; [contradiction|].
      destruct (handle (world s) q) as [w1 x].
      exists (a1 + list_sum bs). split; [lia|]. right. exists a1, bs. simpl. auto.
    + destruct Hm as (at' & b & Hwt & Hwk & Hab).
      exists (b + list_sum (bs ++ [at'])). split; [rewrite list_sum_snoc; lia|].
      right. exists b, (bs ++ [at'])%list. simpl. repeat split; auto.
      apply Forall2_app; auto.
    + rewrite Er. destruct a as [|a1]; [contradiction|].
      exists (a1 + list_sum bs). split; [lia|]. right. exists a1, bs. simpl. auto.
    + exists 0. split; [lia|]. left. reflexivity.
  - (* a task *)
    apply in_ready_tasks in Eg. destruct Eg as (i & t & -> & Hn & Hf).
    simpl. unfold step_task. rewrite Hn.
    destruct t as [r | q k | msg]; [discriminate | |].
    + destruct (handle (world s) q) as [w1 x].
      destruct (within_replace _ _ _ _ _ x Hts Hn) as (bs' & Hts' & Hs).
      exists (a + list_sum bs'). split; [lia|]. right. exists a, bs'. simpl. auto.
    + assert (0 < list_sum bs).
      { clear - Hts Hn. revert i Hn. induction Hts as [|t b ts bs Hw H IH];
          intros [|i] Hn; simpl in *; try discriminate.
        - injection Hn as ->. simpl in Hw. lia.
        - specialize (IH i Hn). lia. }
      exists 0. split; [lia|]. left. reflexivity.
Qed.

(** A schedule at least as long as the bound leaves no goroutine that
    can take a step. *)
Lemma run_exhausts (schedule : list nat) (n : nat) (s : process W R) :
  terminating n s -> n <= length schedule ->
  runnable (run handle schedule s) = [].
Proof.
  revert n s. induction schedule as [|c rest IH]; intros n s Ht Hn; simpl in *.
  - destruct (runnable s) as [|g gs] eqn:Er; [reflexivity|].
    destruct (step_progress 0 n s) as (n' & Hlt & _); [congruence | exact Ht | lia].
  - destruct (runnable s) as [|g gs] eqn:Er.
    + rewrite step_stuck by exact Er. rewrite run_stuck by exact Er. exact Er.
    + destruct (step_progress c n s) as (n' & Hlt & Ht'); [congruence | exact Ht |].
      apply (IH n'); [exact Ht' | lia].
Qed.
End Termination.

(** ** The task obeys its monitor *)

Lemma carriesNoStatus_tagsToCopy (tags : list Tag) :
  carriesNoStatus (tagsToCopy tags) = true.
Proof.
  induction tags as [|t rest IH]; simpl; [reflexivity|].
  destruct (ToString (Key t) =? "ami-migrate-status") eqn:E; simpl; [exact IH|].
  rewrite E. exact IH.
Qed.

Section TaskDiscipline.
Variable good : forall q : Request, Response q -> Prop.
Variable PP : Prop.
(** A panic is acceptable if a launch can succeed with no instance. *)
Hypothesis empty_launch :
  forall input, good (RunInstances input) (Ok []) -> PP.

Local Abbreviation keeps b := (fun (m : bool) (_ : option error) => m = b).
Local Abbreviation any := (fun (_ : bool) (_ : option error) => True).

Lemma tagInstanceStatus_discipline (b : bool) (instance : Instance)
    (status message : string) :
  knownStatus status = true ->
  obeys discipline good PP (keeps b) b (tagInstanceStatus instance status message).
Proof.
  intros Hk. unfold tagInstanceStatus. simpl. intros now _.
  unfold discipline. simpl. rewrite Hk. simpl. intros r _. reflexivity.
Qed.

Lemma snapshotVolumes_discipline (b : bool) (instance : Instance)
    (mappings : list InstanceBlockDeviceMapping) :
  obeys discipline good PP (keeps b) b (snapshotVolumes instance mappings).
Proof.
  induction mappings as [|mapping rest IH]; simpl; [reflexivity|].
  destruct (Ebs mapping) as [ebs|]; [|exact IH].
  simpl. intros [u | err] _; simpl; [exact IH | reflexivity].
Qed.

Lemma stopInstance_discipline (instance : Instance) :
  obeys discipline good PP (keeps false) false (stopInstance instance).
Proof.
  unfold stopInstance. simpl. intros [u | err] _; simpl; [|reflexivity].
  intros [u' | err] _; reflexivity.
Qed.

Lemma replaceInstance_discipline (newAMI : string) (instance : Instance) :
  obeys discipline good PP any false (replaceInstance newAMI instance).
Proof.
  unfold replaceInstance. simpl. intros [news | err] Hg; simpl; [|exact I].
  intros [u | err] _; simpl; [|exact I].
  destruct news as [|n more]; simpl.
  - apply (empty_launch _ Hg).
  - unfold discipline. simpl. rewrite carriesNoStatus_tagsToCopy, orb_true_r. simpl.
    intros [u' | err] _; exact I.
Qed.

Lemma upgradeInstance_discipline (newAMI : string) (instance : Instance) :
  obeys discipline good PP any false (upgradeInstance newAMI instance).
Proof.
  unfold upgradeInstance.
  eapply obeys_bind; [apply snapshotVolumes_discipline|].
  intros m [err|] ->; cbn beta iota; [exact I|].
  destruct (Name (State instance) =? InstanceStateNameRunning).
  - eapply obeys_bind; [apply stopInstance_discipline|].
    intros m [err|] ->; cbn beta iota; [exact I | apply replaceInstance_discipline].
  - apply replaceInstance_discipline.
Qed.

Lemma migrateTask_discipline (newAMI : string) (instance : Instance) :
  obeys discipline good PP (fun _ _ => True) false
        (migrateTask newAMI instance (snd (shouldMigrateInstance instance))).
Proof.
  rewrite shouldMigrateInstance_needsStart.
  unfold migrateTask, upgradeTask, completeTask. cbn [andb].
  eapply obeys_bind; [apply (tagInstanceStatus_discipline false); reflexivity|].
  intros m r ->.
  eapply obeys_bind; [apply upgradeInstance_discipline|].
  intros m [err|] _.
  - eapply obeys_bind; [apply (tagInstanceStatus_discipline m); reflexivity|].
    intros; exact I.
  - eapply obeys_bind; [apply (tagInstanceStatus_discipline m); reflexivity|].
    intros; exact I.
Qed.
End TaskDiscipline.

(** ** Bounds on the steps of the goroutines *)

Lemma within_mono {Q : Type} {A : Q -> Type} {R : Type} (p : prog A R) (n m : nat) :
  within p n -> n <= m -> within p m.
Proof.
  revert n m. induction p as [r | q k IH | msg]; intros n m Hp Hle; simpl in *.
  - exact I.
  - destruct n as [|n1]; [contradiction|]. destruct m as [|m1]; [lia|].
    intros x. apply (IH x n1); [apply Hp | lia].
  - lia.
Qed.

Lemma within_bind {Q : Type} {A : Q -> Type} {R S : Type}
    (p : prog A R) (f : R -> prog A S) (a b : nat) :
  within p a -> (forall r, within (f r) b) -> within (bind p f) (a + b).
Proof.
  revert a. induction p as [r | q k IH | msg]; intros a Hp Hf; simpl in *.
  - apply (within_mono _ b); [apply Hf | lia].
  - destruct a as [|a1]; [contradiction|]. simpl. intros x. apply IH; auto.
  - lia.
Qed.

Lemma within_tagInstanceStatus (instance : Instance) (status message : string) :
  within (tagInstanceStatus instance status message) 2.
Proof. simpl. intros now r. exact I. Qed.

Lemma within_snapshotVolumes (instance : Instance)
    (mappings : list InstanceBlockDeviceMapping) :
  within (snapshotVolumes instance mappings) (length mappings).
Proof.
  induction mappings as [|mapping rest IH]; simpl; [exact I|].
  destruct (Ebs mapping) as [ebs|].
  - simpl. intros [u | err]; simpl; [exact IH | exact I].
  - apply (within_mono _ _ _ IH). lia.
Qed.

Lemma within_stopInstance (instance : Instance) : within (stopInstance instance) 2.
Proof. simpl. intros [u | err]; simpl; [intros w|]; exact I. Qed.

Lemma within_startInstance (instance : Instance) : within (startInstance instance) 2.
Proof. simpl. intros [u | err]; simpl; [intros w|]; exact I. Qed.

Lemma within_replaceInstance (newAMI : string) (instance : Instance) :
  within (replaceInstance newAMI instance) 3.
Proof.
  simpl. intros [news | err]; simpl; [|exact I].
  intros [u | err]; simpl; [|exact I].
  destruct news as [|n more]; simpl; [lia|]. intros [u' | err]; exact I.
Qed.

Lemma within_upgradeInstance (newAMI : string) (instance : Instance) :
  within (upgradeInstance newAMI instance)
         (length (BlockDeviceMappings instance) + 5).
Proof.
  unfold upgradeInstance. apply within_bind; [apply within_snapshotVolumes|].
  intros [err|]; [exact I|].
  destruct (Name (State instance) =? InstanceStateNameRunning).
  - apply (within_bind _ _ 2 3); [apply within_stopInstance|].
    intros [err|]; [simpl; lia | apply within_replaceInstance].
  - apply (within_mono _ 3); [apply within_replaceInstance | lia].
Qed.

Lemma within_report (instance : Instance) (status message : string) :
  within (tagInstanceStatus instance status message ;;; Ret tt) 2.
Proof. simpl. intros now r. exact I. Qed.

Lemma within_upgradeTask (newAMI : string) (instance : Instance) (needsStart : bool) :
  within (upgradeTask newAMI instance needsStart)
         (length (BlockDeviceMappings instance) + 9).
Proof.
  unfold upgradeTask, completeTask.
  replace (length (BlockDeviceMappings instance) + 9)
    with ((length (BlockDeviceMappings instance) + 5) + 4) by lia.
  apply within_bind; [apply within_upgradeInstance|].
  intros [err|].
  - apply (within_mono _ 2); [apply within_report | lia].
  - destruct (needsStart && _).
    + apply (within_bind _ _ 2 2); [apply within_stopInstance|].
      intros [err|]; apply within_report.
    + apply (within_mono _ 2); [apply within_report | lia].
Qed.

Lemma within_migrateTask (newAMI : string) (instance : Instance) (needsStart : bool) :
  within (migrateTask newAMI instance needsStart) (taskBound instance).
Proof.
  unfold migrateTask, taskBound.
  replace (length (BlockDeviceMappings instance) + 13)
    with (2 + (2 + (length (BlockDeviceMappings instance) + 9))) by lia.
  apply within_bind; [apply within_tagInstanceStatus|]. intros _.
  destruct (needsStart && _).
  - apply within_bind; [apply within_startInstance|].
    intros [err|]; [|apply within_upgradeTask].
    apply (within_mono _ 2); [apply within_report | lia].
  - apply (within_mono _ _ _ (within_upgradeTask _ _ _)). lia.
Qed.

Lemma within_main_mono {R : Type} (p : goroutine R) (n m : nat) :
  within_main p n -> n <= m -> within_main p m.
Proof.
  revert n m. induction p as [r | g k IH | msg]; intros n m Hp Hle; simpl in *.
  - exact I.
  - destruct g as [q | task |].
    + destruct n as [|n1]; [contradiction|]. destruct m as [|m1]; [lia|].
      intros x. apply (IH x n1); [apply Hp | lia].
    + destruct Hp as (a & b & Ha & Hb & Hab). exists a, b. repeat split; auto. lia.
    + destruct n as [|n1]; [contradiction|]. destruct m as [|m1]; [lia|].
      apply (IH tt n1); [apply Hp | lia].
  - lia.
Qed.

Lemma within_main_inMain {R S : Type} (p : ec2 R) (f : R -> goroutine S) (a b : nat) :
  within p a -> (forall r, within_main (f r) b) ->
  within_main (bind (inMain p) f) (a + b).
Proof.
  revert a. induction p as [r | q k IH | msg]; intros a Hp Hf; simpl in *.
  - apply (within_main_mono _ b); [apply Hf | lia].
  - destruct a as [|a1]; [contradiction|]. simpl. intros x. apply IH; auto.
  - lia.
Qed.

Lemma within_main_migrateLoop {S : Type} (newAMI : string) (instances : list Instance)
    (K : goroutine S) (b : nat) :
  within_main K b ->
  within_main (migrateLoop newAMI instances ;;; K) (loopBound instances + b).
Proof.
  intros HK. induction instances as [|instance rest IH]; simpl; [exact HK|].
  destruct (shouldMigrateInstance instance) as [shouldMigrate needsStart].
  destruct shouldMigrate; cbn [negb].
  - simpl. exists (taskBound instance), (loopBound rest + b).
    split; [apply within_migrateTask|]. split; [exact IH | lia].
  - apply (within_main_mono _ (2 + (loopBound rest + b))); [|lia].
    simpl. intros now r. exact IH.
Qed.

Lemma within_main_afterFetch (newAMI : string) (instances : list Instance) :
  within_main (afterFetch newAMI (Ok instances)) (loopBound instances + 1).
Proof.
  unfold afterFetch. destruct (len_is_zero instances); [exact I|].
  apply within_main_migrateLoop. simpl. exact I.
Qed.

(** ** The main goroutine obeys its monitor *)

Section MainDiscipline.
Variable good : forall q : Request, Response q -> Prop.
Variable PP : Prop.
Hypothesis empty_launch :
  forall input, good (RunInstances input) (Ok []) -> PP.

Lemma migrateLoop_obeys {R : Type} (PR : list Audit -> R -> Prop)
    (newAMI : string) (instances : list Instance)
    (m : list Audit) (todo : list (ec2 unit)) (K : goroutine R) :
  obeys_main discipline false recording good PP PR
             (rev (expectedSkips instances) ++ m)%list todo K ->
  obeys_main discipline false recording good PP PR m
             (expectedTasks newAMI instances ++ todo)%list
             (migrateLoop newAMI instances ;;; K).
Proof.
  revert m. induction instances as [|instance rest IH]; intros m HK.
  - exact HK.
  - pose proof (migrateTask_discipline good PP empty_launch newAMI instance) as Ht.
    unfold expectedTasks, expectedSkips, eligible in *.
    cbn [migrateLoop filter] in *.
    destruct (shouldMigrateInstance instance) as [shouldMigrate needsStart] eqn:E.
    cbn [fst snd] in *.
    destruct shouldMigrate; cbn [negb map rev] in *.
    + rewrite E. simpl. split; [exact Ht|]. split; [reflexivity|]. apply IH. exact HK.
    + simpl. intros now _ r _. apply IH. rewrite <- app_assoc in HK. exact HK.
Qed.

Lemma afterFetch_obeys (newAMI : string) (r : result (list Instance)) :
  obeys_main discipline false recording good PP (allowed r) []
             (tasksOf newAMI r) (afterFetch newAMI r).
Proof.
  destruct r as [instances | err]; simpl; [|auto].
  destruct instances as [|instance rest]; [simpl; auto|].
  cbn [len_is_zero].
  rewrite <- (app_nil_r (expectedTasks newAMI (instance :: rest))).
  apply migrateLoop_obeys. simpl. rewrite app_nil_r. auto.
Qed.
End MainDiscipline.

(** ** Runs of [MigrateInstances] *)

Lemma rev_auditOf (q : Request) : rev (auditOf q) = auditOf q.
Proof.
  unfold auditOf.
  repeat match goal with
         | |- context [match ?x with _ => _ end] => destruct x
         end; reflexivity.
Qed.

Lemma accepts_recording (qs : list Request) (m0 m : list Audit) :
  accepts recording m0 qs = Some m ->
  m = (rev (audits qs) ++ m0)%list /\ accepts discipline false qs = Some false.
Proof.
  revert m0. induction qs as [|q rest IH]; intros m0; simpl.
  - intros [= <-]. auto.
  - unfold recording at 1. destruct (discipline false q) as [[|]|]; try discriminate.
    intros H. apply IH in H. destruct H as (-> & H). split; [|exact H].
    unfold audits. simpl. rewrite rev_app_distr, <- app_assoc.
    rewrite rev_auditOf. reflexivity.
Qed.

Lemma within_main_afterFetch_result (newAMI : string) (r : result (list Instance)) :
  within_main (afterFetch newAMI r) (migrateBound r).
Proof.
  destruct r as [instances | err]; [apply within_main_afterFetch | exact I].
Qed.

Section Migration.
Context {W : Type}.
Variable handle : W -> forall q : Request, W * Response q.
Variable w : W.
Variables oldAMI newAMI enabledValue : string.

Lemma first_step (c : nat) :
  step handle c (start w (MigrateInstances oldAMI newAMI enabledValue)) =
  fetchedProcess handle w newAMI enabledValue.
Proof.
  unfold step.
  change (runnable (start w (MigrateInstances oldAMI newAMI enabledValue))) with [0].
  change (length [0]) with 1. rewrite Nat.mod_1_r.
  unfold fetchedProcess, fetchRequest. simpl. unfold step_main. simpl.
  destruct (handle w _) as [w1 [reservations | err]]; reflexivity.
Qed.

Lemma run_from_start (c : nat) (rest : list nat) :
  run handle (c :: rest) (start w (MigrateInstances oldAMI newAMI enabledValue)) =
  run handle rest (fetchedProcess handle w newAMI enabledValue).
Proof. simpl. rewrite first_step. reflexivity. Qed.

Variable good : forall q : Request, Response q -> Prop.
Variable PP : Prop.
Hypothesis empty_launch : forall input, good (RunInstances input) (Ok []) -> PP.
Hypothesis handle_good : forall w q, good q (snd (handle w q)).

Local Abbreviation r := (fetched (snd (handle w (fetchRequest enabledValue)))).

Lemma fetched_invariant :
  invariant discipline false recording [] good PP (allowed r) (tasksOf newAMI r)
            (fetchedProcess handle w newAMI enabledValue).
Proof.
  unfold fetchedProcess. cbv zeta. split; [discriminate|]. split.
  - exists [], (tasksOf newAMI r). simpl. split; [reflexivity|]. split; [reflexivity|].
    apply afterFetch_obeys. exact empty_launch.
  - intros i. simpl. rewrite (proj2 (nth_error_None _ _)) by (simpl; lia).
    reflexivity.
Qed.

Lemma fetched_terminating :
  terminating (migrateBound r) (fetchedProcess handle w newAMI enabledValue).
Proof.
  right. exists (migrateBound r), []. split; [|split; [constructor | simpl; lia]].
  apply within_main_afterFetch_result.
Qed.

(** Every run keeps the invariant. *)
Lemma migration_invariant (c : nat) (rest : list nat) :
  invariant discipline false recording [] good PP (allowed r) (tasksOf newAMI r)
    (run handle (c :: rest) (start w (MigrateInstances oldAMI newAMI enabledValue))).
Proof.
  rewrite run_from_start. apply run_invariant; [exact handle_good|].
  apply fetched_invariant.
Qed.

(** A run that is long enough and has not crashed has returned what the
    monitor allows, after the status writes it recorded, and has started
    the expected tasks. *)
Lemma migration_settles (schedule : list nat) :
  S (migrateBound r) <= length schedule ->
  let s := run handle schedule
               (start w (MigrateInstances oldAMI newAMI enabledValue)) in
  crashed s = false ->
  exists e, returned s = Some e /\
            allowed r (rev (audits (requests_of 0 (log s)))) e /\
            launched s = tasksOf newAMI r.
Proof.
  destruct schedule as [|c rest]; simpl length; [lia|]. intros Hlen s Hc.
  pose proof (migration_invariant c rest) as (_ & (m & todo & Hacc & Hl & Hob) & _).
  fold s in Hacc, Hl, Hob.
  assert (Hrun : runnable s = []).
  { unfold s. rewrite run_from_start.
    apply (run_exhausts handle rest (migrateBound r)); [apply fetched_terminating | lia]. }
  destruct (settled s Hrun Hc) as (e & He).
  exists e. split; [exact He|].
  unfold returned in He. rewrite Hc in He.
  destruct (mainG s) as [e' | g k | msg]; try discriminate.
  injection He as ->. simpl in Hob. destruct Hob as (Hadm & ->).
  rewrite app_nil_r in Hl. split; [|exact Hl].
  apply accepts_recording in Hacc. destruct Hacc as (-> & _).
  rewrite app_nil_r in Hadm. exact Hadm.
Qed.
End Migration.


(** With a provider whose successful launches return an instance, a
    run that is long enough has returned. *)
Lemma migration_terminates {W : Type} (handle : W -> forall q : Request, W * Response q)
    (w : W) (oldAMI newAMI enabledValue : string) :
  (forall w q, launchesOne q (snd (handle w q))) ->
  exists n, forall schedule, n <= length schedule ->
    exists e,
      returned (run handle schedule
                    (start w (MigrateInstances oldAMI newAMI enabledValue))) = Some e.
Proof.
  intros Hgood.
  exists (S (migrateBound (fetched (snd (handle w (fetchRequest enabledValue)))))).
  intros schedule Hlen.
  assert (Hc : crashed (run handle schedule
                          (start w (MigrateInstances oldAMI newAMI enabledValue)))
               = false).
  { destruct schedule as [|c rest]; [reflexivity|].
    pose proof (migration_invariant handle w oldAMI newAMI enabledValue
                  launchesOne False (fun _ H => H eq_refl) Hgood c rest) as (Hc & _).
    destruct (crashed _); [exfalso; auto | reflexivity]. }
  destruct (migration_settles handle w oldAMI newAMI enabledValue
              launchesOne False (fun _ H => H eq_refl) Hgood schedule Hlen Hc)
    as (e & He & _).
  exists e. exact He.
Qed.

(** ** What the discipline implies for a list of requests *)

Lemma accepts_app {Q M : Type} (delta : M -> Q -> option M) (l1 l2 : list Q) (m : M) :
  accepts delta m (l1 ++ l2) =
  match accepts delta m l1 with
  | Some m1 => accepts delta m1 l2
  | None => None
  end.
Proof.
  revert m. induction l1 as [|q rest IH]; intros m; simpl; [reflexivity|].
  destruct (delta m q); [apply IH | reflexivity].
Qed.

Lemma discipline_inv (b b' : bool) (q : Request) :
  discipline b q = Some b' ->
  isStart q = false /\ tagsAllowed q = true /\
  (isStop q = true -> b = false) /\ b' = (isRunInstances q || b)%bool.
Proof.
  unfold discipline. destruct (isStart q); [discriminate|].
  destruct (isStop q); destruct b; simpl; try discriminate;
    destruct (tagsAllowed q); simpl; try discriminate;
    intros [= <-]; auto.
Qed.

Lemma discipline_requests (qs : list Request) (b b' : bool) :
  accepts discipline b qs = Some b' ->
  Forall (fun q => isStart q = false /\ tagsAllowed q = true) qs.
Proof.
  revert b. induction qs as [|q rest IH]; intros b H; simpl in *; [constructor|].
  destruct (discipline b q) as [b1|] eqn:E; [|discriminate].
  apply discipline_inv in E. constructor; [tauto | eauto].
Qed.

Lemma discipline_replaced (qs : list Request) (b' : bool) :
  accepts discipline true qs = Some b' -> Forall (fun q => isStop q = false) qs.
Proof.
  induction qs as [|q rest IH]; intros H; simpl in *; [constructor|].
  destruct (discipline true q) as [b1|] eqn:E; [|discriminate].
  apply discipline_inv in E. destruct E as (_ & _ & Hs & ->).
  rewrite orb_true_r in H. constructor; [|auto].
  destruct (isStop q); [specialize (Hs eq_refl); discriminate | reflexivity].
Qed.

Lemma discipline_after_run (before after : list Request) (q : Request) (b b' : bool) :
  accepts discipline b (before ++ q :: after) = Some b' ->
  isRunInstances q = true ->
  Forall (fun q' => isStop q' = false) after.
Proof.
  rewrite accepts_app. destruct (accepts discipline b before) as [b1|]; [|discriminate].
  simpl. destruct (discipline b1 q) as [b2|] eqn:E; [|discriminate].
  apply discipline_inv in E. destruct E as (_ & _ & _ & ->).
  intros H Hr. rewrite Hr in H. simpl in H. eapply discipline_replaced, H.
Qed.

Lemma knownStatus_In (status : string) :
  knownStatus status = true -> In status knownStatuses.
Proof.
  unfold knownStatus. intros H. apply existsb_exists in H.
  destruct H as (x & Hin & Heq). apply String.eqb_eq in Heq. subst. exact Hin.
Qed.

Lemma isAuditTriple_spec (tags : list Tag) :
  isAuditTriple tags = true ->
  exists status message timestamp,
    tags = statusTags status message timestamp /\ In status knownStatuses.
Proof.
  unfold isAuditTriple.
  repeat match goal with
         | |- context [match ?x with _ => _ end] => destruct x
         end; try discriminate.
  intros H. repeat (apply andb_true_iff in H; destruct H as (H & ?)).
  repeat match goal with
         | E : (_ =? _) = true |- _ => apply String.eqb_eq in E
         end. subst.
  do 3 eexists. split; [reflexivity|]. apply knownStatus_In. assumption.
Qed.

Lemma carriesNoStatus_spec (tags : list Tag) :
  carriesNoStatus tags = true ->
  forall tag, In tag tags -> ToString (Key tag) <> "ami-migrate-status".
Proof.
  unfold carriesNoStatus. intros H tag Hin.
  rewrite forallb_forall in H. specialize (H tag Hin).
  apply negb_true_iff, String.eqb_neq in H. exact H.
Qed.

(** In every run, every goroutine's requests are accepted by the
    discipline, whatever the provider answers. *)
Lemma run_disciplined {W : Type} (handle : W -> forall q : Request, W * Response q)
    (w : W) (oldAMI newAMI enabledValue : string) (schedule : list nat) (g : nat) :
  exists b,
    accepts discipline false
      (requests_of g (log (run handle schedule
                             (start w (MigrateInstances oldAMI newAMI enabledValue)))))
    = Some b.
Proof.
  destruct schedule as [|c rest]; [exists false; reflexivity|].
  pose proof (migration_invariant handle w oldAMI newAMI enabledValue
                anyAnswer True (fun _ _ => I) (fun _ _ => I) c rest)
    as (_ & (m & todo & Hacc & _ & _) & Ht).
  destruct g as [|i].
  - apply accepts_recording in Hacc. exists false. tauto.
  - specialize (Ht i). unfold task_ok in Ht.
    destruct (nth_error _ i) as [t|].
    + destruct Ht as (b & Hb & _). exists b. exact Hb.
    + rewrite Ht. exists false. reflexivity.
Qed.

(** ** The result of [MigrateInstances] *)






Example MigrateInstances_fetch_fails :
  returned (run unreachable [0] (start 0 (MigrateInstances "ami-old" "ami-new" "enabled")))
  = Some (Some (wrapError "fetch instances: RequestTimeout" (errorString "RequestTimeout"))).
Proof. reflexivity. Qed.

(** ** A fleet with nothing to migrate *)

Section Skipping.
Context {W : Type}.
Variable handle : W -> forall q : Request, W * Response q.
Context {R : Type}.
Variable first : nat * Event.

Lemma step_skipping (c : nat) (s : process W R) :
  skipping first s -> skipping first (step handle c s).
Proof.
  intros Hs. pose proof Hs as (Hc & Hp & Hl & Hm & l & Hlog & Hall).
  unfold step. destruct (nth_error (runnable s) _) as [[|i]|]; [| |exact Hs].
  - simpl. unfold step_main.
    destruct (mainG s) as [r | [q | task |] k | msg]; cbn [onlySkips] in Hm;
      try contradiction; [exact Hs | |].
    + destruct Hm as (Hq & Hk). destruct (handle (world s) q) as [w1 x].
      unfold skipping. simpl. repeat split; auto.
      exists (l ++ [(0, mkEvent q (answer_of q x))])%list. rewrite Hlog.
      split; [reflexivity|]. apply Forall_app. split; [exact Hall|].
      constructor; [|constructor]. simpl. auto.
    + rewrite Hp. simpl. unfold skipping. simpl. repeat split; eauto.
  - simpl. unfold step_task. rewrite Hp. destruct i; exact Hs.
Qed.

Lemma run_skipping (schedule : list nat) (s : process W R) :
  skipping first s -> skipping first (run handle schedule s).
Proof.
  revert s. induction schedule as [|c rest IH]; intros s H; simpl; [exact H|].
  apply IH, step_skipping, H.
Qed.
End Skipping.

Lemma onlySkips_migrateLoop {R : Type} (newAMI : string) (instances : list Instance)
    (K : goroutine R) :
  Forall (fun instance => fst (shouldMigrateInstance instance) = false) instances ->
  onlySkips K ->
  onlySkips (migrateLoop newAMI instances ;;; K).
Proof.
  intros H HK. induction H as [|instance rest Hi H IH]; [exact HK|].
  cbn [migrateLoop].
  destruct (shouldMigrateInstance instance) as [shouldMigrate needsStart].
  simpl in Hi. subst shouldMigrate. cbn [negb]. simpl.
  split; [reflexivity|]. intros now. split; [reflexivity|]. intros r. exact IH.
Qed.

Lemma onlySkips_afterFetch (newAMI : string) (instances : list Instance) :
  Forall (fun instance => fst (shouldMigrateInstance instance) = false) instances ->
  onlySkips (afterFetch newAMI (Ok instances)).
Proof.
  intros H. unfold afterFetch. destruct (len_is_zero instances); [exact I|].
  apply onlySkips_migrateLoop; [exact H|]. simpl. exact I.
Qed.

Lemma expectedSkips_all (instances : list Instance) :
  Forall (fun instance => fst (shouldMigrateInstance instance) = false) instances ->
  expectedSkips instances = map skippedAudit instances.
Proof.
  intros H. unfold expectedSkips. f_equal.
  induction H as [|instance rest Hi H IH]; [reflexivity|].
  simpl. unfold eligible at 1. rewrite Hi. simpl. f_equal. exact IH.
Qed.

(** C6 (as amended).  Let the eligibility query succeed.  When it
    returns no instance, every run that has taken a step has returned
    nil, has started no task, and has made no request but the query: no
    mutation call.  When no instance it returns passes the eligibility
    check, no run ever starts a task, and the main goroutine makes,
    after the query, only the calls of the status writes [skipped]; every
    schedule that is long enough ends with [MigrateInstances] returned
    nil after one such write for each instance returned, in order. *)
Theorem no_instances_no_effects (W : Type)
    (handle : W -> forall q : Request, W * Response q) (w : W)
    (oldAMI newAMI enabledValue : string)
    (reservations : list Reservation) :
  snd (handle w (fetchRequest enabledValue)) = Ok reservations ->
  (appendReservations [] reservations = [] ->
   forall schedule, schedule <> [] ->
     let s := run handle schedule
                  (start w (MigrateInstances oldAMI newAMI enabledValue)) in
     returned s = Some None /\
     log s = [(0, mkEvent (fetchRequest enabledValue) (AReservations reservations))] /\
     launched s = [] /\
     Forall (fun e => isMutation (request (snd e)) = false) (log s)) /\
  (Forall (fun instance => fst (shouldMigrateInstance instance) = false)
          (appendReservations [] reservations) ->
   (forall schedule, schedule <> [] ->
      let s := run handle schedule
                   (start w (MigrateInstances oldAMI newAMI enabledValue)) in
      crashed s = false /\ launched s = [] /\ pool s = [] /\
      exists l,
        log s = (0, mkEvent (fetchRequest enabledValue) (AReservations reservations))
                :: l /\
        Forall (fun e => fst e = 0 /\ isSkipWrite (request (snd e)) = true) l) /\
   (exists n, forall schedule, n <= length schedule ->
      let s := run handle schedule
                   (start w (MigrateInstances oldAMI newAMI enabledValue)) in
      returned s = Some None /\
      audits (requests_of 0 (log s)) =
        map (fun instance =>
               ([ToString (InstanceId instance)], "skipped",
                "Instance state or tags do not meet migration criteria"))
            (appendReservations [] reservations))).
Proof.
  intros Hq. split.
  - intros Hnone schedule Hs. destruct schedule as [|c rest]; [contradiction|].
    cbv zeta. rewrite run_from_start.
    assert (E : fetchedProcess handle w newAMI enabledValue =
                mkProcess (fst (handle w (fetchRequest enabledValue))) (Ret None) [] []
                  [(0, mkEvent (fetchRequest enabledValue) (AReservations reservations))]
                  false).
    { unfold fetchedProcess. cbv zeta. rewrite Hq. simpl. rewrite Hnone. reflexivity. }
    rewrite E, run_stuck by reflexivity.
    repeat split. repeat constructor.
  - intros Hall.
    assert (Hskip : forall schedule, schedule <> [] ->
              skipping (0, mkEvent (fetchRequest enabledValue) (AReservations reservations))
                    (run handle schedule
                         (start w (MigrateInstances oldAMI newAMI enabledValue)))).
    { intros schedule Hs. destruct schedule as [|c rest]; [contradiction|].
      rewrite run_from_start. apply run_skipping.
      unfold fetchedProcess, skipping. cbv zeta. rewrite Hq. cbn [fetched].
      simpl. repeat split; auto.
      - apply onlySkips_afterFetch, Hall.
      - exists []. split; [reflexivity | constructor]. }
    split.
    + intros schedule Hs s. destruct (Hskip schedule Hs) as (Hc & Hp & Hl & _ & Hlog).
      fold s in Hc, Hp, Hl, Hlog. auto.
    + exists (S (migrateBound (Ok (appendReservations [] reservations)))).
      intros schedule Hlen s.
      assert (Hs : schedule <> []).
      { destruct schedule; [simpl in Hlen; lia | discriminate]. }
      destruct (Hskip schedule Hs) as (Hc & _).
      pose proof (migration_settles handle w oldAMI newAMI enabledValue
                    anyAnswer True (fun _ _ => I) (fun _ _ => I) schedule) as Hset.
      rewrite Hq in Hset. cbn [fetched] in Hset.
      destruct (Hset Hlen Hc) as (e & He & Hadm & _). fold s in He, Hadm.
      simpl in Hadm. destruct Hadm as (-> & Hadm). split; [exact He|].
      apply (f_equal (@rev Audit)) in Hadm. rewrite !rev_involutive in Hadm.
      rewrite Hadm. apply expectedSkips_all, Hall.
Qed.

Lemma no_instances_no_effects_witness :
  (let s := run (scripted scenarioEmpty) [0; 1; 2]
                (start 0 (MigrateInstances "ami-old" "ami-new" "enabled")) in
   returned s = Some None /\
   log s = [(0, mkEvent (fetchRequest "enabled") (AReservations [mkReservation []]))] /\
   launched s = [] /\
   Forall (fun e => isMutation (request (snd e)) = false) (log s)) /\
  (exists n, forall schedule, n <= length schedule ->
     let s := run (scripted scenarioIneligible) schedule
                  (start 0 (MigrateInstances "ami-old" "ami-new" "enabled")) in
     returned s = Some None /\
     audits (requests_of 0 (log s)) =
       [(["i-1"], "skipped", "Instance state or tags do not meet migration criteria")]).
Proof.
  split.
  - apply (proj1 (no_instances_no_effects nat (scripted scenarioEmpty) 0
                    "ami-old" "ami-new" "enabled" [mkReservation []] eq_refl)
                 eq_refl [0; 1; 2]).
    discriminate.
  - apply (proj2 (no_instances_no_effects nat (scripted scenarioIneligible) 0
                    "ami-old" "ami-new" "enabled" [mkReservation [i1]] eq_refl)).
    repeat constructor.
Defined.

(** C6 as stated fails when the query returns instances of which none is
    eligible: over [i-1], which is running without the second marker,
    [MigrateInstances] returns nil and starts no task, but has called
    [CreateTags] to write the status [skipped]. *)
Lemma skipped_write_is_a_mutation :
  let s := run (scripted scenarioIneligible) [0; 0; 0; 0]
               (start 0 (MigrateInstances "ami-old" "ami-new" "enabled")) in
  fetched (snd (scripted scenarioIneligible 0 (fetchRequest "enabled"))) = Ok [i1] /\
  shouldMigrateInstance i1 = (false, false) /\
  returned s = Some None /\
  launched s = [] /\
  map (fun e => request (snd e)) (log s) =
    [ fetchRequest "enabled";
      NowUTCFormat RFC3339;
      CreateTags (mkCreateTagsInput ["i-1"]
                    (statusTags "skipped"
                       "Instance state or tags do not meet migration criteria"
                       "2024-05-01T12:00:00Z")) ] /\
  ~ Forall (fun e => isMutation (request (snd e)) = false) (log s).
Proof.
  cbv zeta. repeat (split; [reflexivity|]).
  intros H. rewrite Forall_forall in H.
  specialize (H (0, mkEvent (CreateTags (mkCreateTagsInput ["i-1"]
                    (statusTags "skipped"
                       "Instance state or tags do not meet migration criteria"
                       "2024-05-01T12:00:00Z"))) ADone)).
  assert (E : isMutation (CreateTags (mkCreateTagsInput ["i-1"]
                    (statusTags "skipped"
                       "Instance state or tags do not meet migration criteria"
                       "2024-05-01T12:00:00Z"))) = false).
  { apply H. vm_compute. right. right. left. reflexivity. }
  discriminate E.
Qed.

(** ** The transient start *)

(** C7.  The eligibility decision never asks for a transient start.
    Hence in every run, at every moment and whatever the provider
    answers, no goroutine has made a [StartInstances] call (or waited for
    an instance to run), and no goroutine has stopped an instance after
    it requested the replacement: the stop that would return the
    instance to its original state is never made. *)
Theorem transient_start_never_happens :
  (forall instance, snd (shouldMigrateInstance instance) = false) /\
  (forall (W : Type) (handle : W -> forall q : Request, W * Response q) (w : W)
          (oldAMI newAMI enabledValue : string) (schedule : list nat) (g : nat),
     let qs :=
       requests_of g
         (log (run handle schedule
                   (start w (MigrateInstances oldAMI newAMI enabledValue)))) in
     Forall (fun q => isStart q = false) qs /\
     (forall before q after,
        qs = (before ++ q :: after)%list -> isRunInstances q = true ->
        Forall (fun q' => isStop q' = false) after)).
Proof.
  split; [exact shouldMigrateInstance_needsStart|].
  intros W handle w oldAMI newAMI enabledValue schedule g. cbv zeta.
  destruct (run_disciplined handle w oldAMI newAMI enabledValue schedule g)
    as (b & Hacc).
  split.
  - apply discipline_requests in Hacc. revert Hacc. apply Forall_impl. tauto.
  - intros before q after E Hr. rewrite E in Hacc.
    apply (discipline_after_run _ _ _ _ _ Hacc Hr).
Qed.

Example running_instance_is_stopped_before_replacement :
  map request (events (scripted (mkScript [i3] [] [iNew] None))
                 (migrateTask "ami-new" i3 (snd (shouldMigrateInstance i3))) 0) =
  [ NowUTCFormat RFC3339;
    CreateTags (mkCreateTagsInput ["i-3"]
      (statusTags "in-progress" "Starting migration" "2024-05-01T12:00:00Z"));
    CreateSnapshot (snapshotInput i3 (mkEbs (Some "vol-c")));
    StopInstances ["i-3"];
    InstanceStoppedWaiter ["i-3"];
    RunInstances (runInput "ami-new" i3);
    TerminateInstances ["i-3"];
    CreateTags (mkCreateTagsInput ["i-new"] [enabledTag; ifRunningTag]);
    NowUTCFormat RFC3339;
    CreateTags (mkCreateTagsInput ["i-3"]
      (statusTags "completed" "Migration completed successfully"
         "2024-05-01T12:00:00Z")) ].
Proof. reflexivity. Qed.

(** ** The status recorder *)

Section Recorder.
Context {W : Type}.
Variable handle : W -> forall q : Request, W * Response q.

Lemma events_bind {R S : Type} (p : ec2 R) (f : R -> ec2 S) (w : W) (r : R) :
  result_of handle p w = Returned r ->
  events handle (bind p f) w =
  (events handle p w ++ events handle (f r) (world_after handle p w))%list.
Proof.
  unfold result_of, events, world_after. rewrite exec_bind.
  destruct (exec handle p w) as [[w1 evs1] o]. simpl. intros ->.
  destruct (exec handle (f r) w1) as [[w2 evs2] o2]. reflexivity.
Qed.

Lemma events_report (instance : Instance) (status message : string) (w : W) :
  exists a,
    events handle (tagInstanceStatus instance status message ;;; Ret tt) w =
    statusEvents instance status message (snd (handle w (NowUTCFormat RFC3339))) a.
Proof.
  destruct (exec_tagInstanceStatus handle instance status message w)
    as (w1 & a & r & E & _).
  exists a. unfold events. rewrite exec_bind, E. simpl. reflexivity.
Qed.

Lemma result_tagInstanceStatus (instance : Instance) (status message : string) (w : W) :
  exists r, result_of handle (tagInstanceStatus instance status message) w = Returned r.
Proof.
  destruct (exec_tagInstanceStatus handle instance status message w)
    as (w1 & a & r & E & _).
  exists r. unfold result_of. rewrite E. reflexivity.
Qed.
End Recorder.

(** C8.  (1) A call of [tagInstanceStatus] reads the clock in the layout
    RFC 3339, in UTC, and then makes one [CreateTags] call on the
    instance, with the three tags [ami-migrate-status],
    [ami-migrate-message] and [ami-migrate-timestamp], the last holding
    the clock reading.  (2) In every run, every [CreateTags] of every
    goroutine is such a triple with one of the five statuses, or carries
    no status tag (the tag copy).  (3) When starting, upgrading or, after
    the upgrade, stopping the instance fails with [err], the status
    written next has a message that ends with the description of
    [err]. *)
Theorem tagInstanceStatus_audit_triple :
  (forall (W : Type) (handle : W -> forall q : Request, W * Response q) (w : W)
          (instance : Instance) (status message : string),
     map request (events handle (tagInstanceStatus instance status message) w) =
     [ NowUTCFormat "2006-01-02T15:04:05Z07:00";
       CreateTags
         (mkCreateTagsInput [ToString (InstanceId instance)]
            [ mkTag (Some "ami-migrate-status") (Some status);
              mkTag (Some "ami-migrate-message") (Some message);
              mkTag (Some "ami-migrate-timestamp")
                    (Some (snd (handle w (NowUTCFormat "2006-01-02T15:04:05Z07:00")))) ]) ]) /\
  (forall (W : Type) (handle : W -> forall q : Request, W * Response q) (w : W)
          (oldAMI newAMI enabledValue : string) (schedule : list nat) (g : nat)
          (input : CreateTagsInput),
     In (CreateTags input)
        (requests_of g
           (log (run handle schedule
                     (start w (MigrateInstances oldAMI newAMI enabledValue))))) ->
     (exists status message timestamp,
        TagsToCreate input = statusTags status message timestamp /\
        In status ["skipped"; "in-progress"; "failed"; "warning"; "completed"]) \/
     (forall tag, In tag (TagsToCreate input) ->
                  ToString (Key tag) <> "ami-migrate-status")) /\
  (forall (W : Type) (handle : W -> forall q : Request, W * Response q) (w : W)
          (newAMI : string) (inst : Instance) (err : error),
     let w1 := world_after handle
                 (tagInstanceStatus inst "in-progress" "Starting migration") w in
     Name (State inst) <> "running" ->
     result_of handle (startInstance inst) w1 = Returned (Some err) ->
     exists now a,
       events handle (migrateTask newAMI inst true) w =
       (events handle (tagInstanceStatus inst "in-progress" "Starting migration") w
        ++ events handle (startInstance inst) w1
        ++ statusEvents inst "failed" ("Failed to start instance: " ++ Error err)
             now a)%list) /\
  (forall (W : Type) (handle : W -> forall q : Request, W * Response q) (w : W)
          (newAMI : string) (inst : Instance) (needsStart : bool) (err : error),
     result_of handle (upgradeInstance newAMI inst) w = Returned (Some err) ->
     exists now a,
       events handle (upgradeTask newAMI inst needsStart) w =
       (events handle (upgradeInstance newAMI inst) w
        ++ statusEvents inst "failed" ("Failed to upgrade instance: " ++ Error err)
             now a)%list) /\
  (forall (W : Type) (handle : W -> forall q : Request, W * Response q) (w : W)
          (newAMI : string) (inst : Instance) (err : error),
     let w1 := world_after handle (upgradeInstance newAMI inst) w in
     Name (State inst) <> "running" ->
     result_of handle (upgradeInstance newAMI inst) w = Returned None ->
     result_of handle (stopInstance inst) w1 = Returned (Some err) ->
     exists now a,
       events handle (upgradeTask newAMI inst true) w =
       (events handle (upgradeInstance newAMI inst) w
        ++ events handle (stopInstance inst) w1
        ++ statusEvents inst "warning"
             ("Migration successful but failed to stop instance: " ++ Error err)
             now a)%list).
Proof.
  split; [|split; [|split; [|split]]].
  - intros W handle w instance status message.
    destruct (exec_tagInstanceStatus handle instance status message w)
      as (w1 & a & r & E & _).
    unfold events. rewrite E. reflexivity.
  - intros W handle w oldAMI newAMI enabledValue schedule g input Hin.
    destruct (run_disciplined handle w oldAMI newAMI enabledValue schedule g)
      as (b & Hacc).
    apply discipline_requests in Hacc. rewrite Forall_forall in Hacc.
    destruct (Hacc _ Hin) as (_ & Hallowed). simpl in Hallowed.
    apply orb_true_iff in Hallowed. destruct Hallowed as [Ha | Hc].
    + left. apply isAuditTriple_spec, Ha.
    + right. apply carriesNoStatus_spec, Hc.
  - intros W handle w newAMI inst err w1 Hst Hstart.
    apply String.eqb_neq in Hst.
    destruct (result_tagInstanceStatus handle inst "in-progress" "Starting migration" w)
      as (r0 & Hr0).
    unfold migrateTask. rewrite (events_bind handle _ _ w r0 Hr0).
    unfold InstanceStateNameRunning. rewrite Hst. cbn [andb negb].
    fold w1. rewrite (events_bind handle _ _ w1 (Some err) Hstart).
    destruct (events_report handle inst "failed"
                (Sprintf_v "Failed to start instance: " err)
                (world_after handle (startInstance inst) w1)) as (a & Ea).
    rewrite Ea. do 2 eexists. reflexivity.
  - intros W handle w newAMI inst needsStart err Hup.
    unfold upgradeTask. rewrite (events_bind handle _ _ w (Some err) Hup).
    destruct (events_report handle inst "failed"
                (Sprintf_v "Failed to upgrade instance: " err)
                (world_after handle (upgradeInstance newAMI inst) w)) as (a & Ea).
    rewrite Ea. do 2 eexists. reflexivity.
  - intros W handle w newAMI inst err w1 Hst Hup Hstop.
    apply String.eqb_neq in Hst.
    unfold upgradeTask. rewrite (events_bind handle _ _ w None Hup).
    unfold InstanceStateNameRunning. rewrite Hst. cbn [andb negb].
    fold w1. rewrite (events_bind handle _ _ w1 (Some err) Hstop).
    destruct (events_report handle inst "warning"
                (Sprintf_v "Migration successful but failed to stop instance: " err)
                (world_after handle (stopInstance inst) w1)) as (a & Ea).
    rewrite Ea. do 2 eexists. reflexivity.
Qed.

(** ** Skipped instances *)

Lemma length_replace_nth {A : Type} (i : nat) (x : A) (l : list A) :
  length (replace_nth i x l) = length l.
Proof.
  revert i. induction l as [|a rest IH]; intros [|i]; simpl; auto.
Qed.

(** The pool holds one goroutine for each task started. *)
Lemma run_pool_length {W R : Type} (handle : W -> forall q : Request, W * Response q)
    (schedule : list nat) (s : process W R) :
  length (pool s) = length (launched s) ->
  length (pool (run handle schedule s)) = length (launched (run handle schedule s)).
Proof.
  revert s. induction schedule as [|c rest IH]; intros s H; simpl; [exact H|].
  apply IH. unfold step.
  destruct (nth_error (runnable s) _) as [[|i]|]; simpl; [| |exact H].
  - unfold step_main. destruct (mainG s) as [r | [q | task |] k | msg]; simpl; auto.
    + destruct (handle (world s) q) as [w1 x]. exact H.
    + rewrite !length_app, H. reflexivity.
    + destruct (forallb finished (pool s)); exact H.
  - unfold step_task. destruct (nth_error (pool s) i) as [[r | q k | msg]|]; simpl; auto.
    destruct (handle (world s) q) as [w1 x]. simpl.
    rewrite length_replace_nth. exact H.
Qed.





(** * Further properties *)

(** ** The runs of [upgradeInstance] *)

Section UpgradeRuns.
Context {W : Type}.
Variable handle : W -> forall q : Request, W * Response q.

Lemma upgradePrelude_not_running (instance : Instance) :
  (Name (State instance) =? InstanceStateNameRunning) = false ->
  upgradePrelude instance =
  map (snapshotEvent instance ADone) (ebsDevices (BlockDeviceMappings instance)).
Proof.
  intros H. unfold upgradePrelude, stopPrelude. rewrite H. apply app_nil_r.
Qed.

Lemma upgradePrelude_running (instance : Instance) (rest : list Event) :
  (Name (State instance) =? InstanceStateNameRunning) = true ->
  (upgradePrelude instance ++ rest)%list =
  (map (snapshotEvent instance ADone) (ebsDevices (BlockDeviceMappings instance))
   ++ mkEvent (StopInstances [ToString (InstanceId instance)]) ADone
   :: mkEvent (InstanceStoppedWaiter [ToString (InstanceId instance)]) ADone
   :: rest)%list.
Proof.
  intros H. unfold upgradePrelude, stopPrelude. rewrite H, <- app_assoc. reflexivity.
Qed.

(** The runs of [replaceInstance], after the events [before]. *)
Lemma runs_replaceInstance_cases (newAMI : string) (instance : Instance)
    (w : W) (evs : list Event) (o : outcome (option error)) (w1 : W) :
  runs handle (replaceInstance newAMI instance) w evs o w1 ->
  upgradeRun newAMI instance (upgradePrelude instance ++ evs)%list o.
Proof.
  unfold runs, replaceInstance. simpl.
  destruct (handle w _) as [w2 [news | e]]; simpl.
  2:{ intros [= <- <- <-]. eapply RunFails. reflexivity. }
  destruct (handle w2 _) as [w3 [u | e]]; simpl.
  2:{ intros [= <- <- <-]. eapply TerminateFails. reflexivity. }
  destruct news as [|n more]; simpl.
  { intros [= <- <- <-]. eapply LaunchedNothing. reflexivity. }
  destruct (handle w3 _) as [w4 [u' | e]]; simpl; intros [= <- <- <-].
  - eapply Upgraded. reflexivity.
  - eapply CopyFails. reflexivity.
Qed.

(** Every run of [upgradeInstance] is one of the eight. *)
Lemma runs_upgradeInstance (newAMI : string) (instance : Instance)
    (w : W) (evs : list Event) (o : outcome (option error)) (w1 : W) :
  runs handle (upgradeInstance newAMI instance) w evs o w1 ->
  upgradeRun newAMI instance evs o.
Proof.
  unfold upgradeInstance. intros H.
  apply runs_bind in H. destruct H as (w2 & evsS & oS & HS & H).
  apply runs_snapshotVolumes in HS.
  destruct HS as [[-> ->] | (pre & e & post & err & Hd & -> & ->)].
  2:{ destruct H as (evs2 & H & ->). apply runs_ret in H.
      destruct H as (-> & -> & _). rewrite app_nil_r.
      eapply SnapshotFails; [exact Hd | reflexivity]. }
  destruct H as (evs2 & H & ->).
  destruct (Name (State instance) =? InstanceStateNameRunning) eqn:Hrun.
  - apply runs_bind in H. destruct H as (w3 & evsT & oT & HT & H).
    pose proof (proj1 (String.eqb_eq _ _) Hrun) as Hname.
    unfold runs, stopInstance in HT. simpl in HT.
    destruct (handle w2 _) as [w4 [u | e]]; simpl in HT.
    2:{ injection HT as <- <- <-. destruct H as (evs3 & H & ->).
        apply runs_ret in H. destruct H as (-> & -> & _).
        eapply StopFails; [exact Hname | reflexivity]. }
    destruct (handle w4 _) as [w5 [u' | e]]; simpl in HT; injection HT as <- <- <-.
    + destruct H as (evs3 & H & ->). apply runs_replaceInstance_cases in H.
      rewrite upgradePrelude_running in H by exact Hrun. exact H.
    + destruct H as (evs3 & H & ->). apply runs_ret in H.
      destruct H as (-> & -> & _).
      eapply StopWaitFails; [exact Hname | reflexivity].
  - apply runs_replaceInstance_cases in H.
    unfold upgradePrelude, stopPrelude in H. rewrite Hrun, app_nil_r in H. exact H.
Qed.

Lemma upgradeInstance_run (newAMI : string) (instance : Instance) (w : W) :
  upgradeRun newAMI instance
    (events handle (upgradeInstance newAMI instance) w)
    (result_of handle (upgradeInstance newAMI instance) w).
Proof. eapply runs_upgradeInstance, runs_exec. Qed.
End UpgradeRuns.

Lemma in_upgradePrelude (instance : Instance) (ev : Event) :
  In ev (upgradePrelude instance) ->
  answer ev = ADone /\
  (isCreateSnapshot (request ev) = true \/ isStop (request ev) = true).
Proof.
  unfold upgradePrelude, stopPrelude. rewrite in_app_iff. intros [H | H].
  - apply in_map_iff in H. destruct H as (e & <- & _). auto.
  - destruct (Name (State instance) =? InstanceStateNameRunning);
      [destruct H as [<- | [<- | []]]; auto | destruct H].
Qed.

Lemma upgradePrelude_succeeded (instance : Instance) :
  Forall succeeded (upgradePrelude instance) /\
  Forall launched_one (upgradePrelude instance).
Proof.
  split; apply Forall_forall; intros ev Hin; apply in_upgradePrelude in Hin;
    destruct Hin as (Ha & _); unfold succeeded, launched_one, failure;
    rewrite Ha; [reflexivity | discriminate].
Qed.

(** Decides where an event of a run of [upgradeInstance] lies. *)
Ltac locate_event H :=
  apply in_app_iff in H; destruct H as [H | H];
  [ apply in_upgradePrelude in H; destruct H as (? & [? | ?])
  | simpl in H; repeat (destruct H as [<- | H]); try destruct H ].

(** X1.  The source instance is terminated only after every EBS device was
    snapshotted, the instance was stopped if it was running, and the
    replacement was launched; and it is terminated at most once. *)
Theorem terminate_only_after_launch (W : Type)
    (handle : W -> forall q : Request, W * Response q) (w : W)
    (newAMI : string) (instance : Instance) (ev : Event) :
  In ev (events handle (upgradeInstance newAMI instance) w) ->
  isTerminate (request ev) = true ->
  exists news rest,
    events handle (upgradeInstance newAMI instance) w =
      (upgradePrelude instance
       ++ runEvent newAMI instance (AInstances news)
       :: terminateEvent instance (answer ev) :: rest)%list /\
    ev = terminateEvent instance (answer ev) /\
    Forall (fun e => isTerminate (request e) = false) rest.
Proof.
  intros Hin Hterm.
  destruct (upgradeInstance_run handle newAMI instance w)
    as [pre ebs post err evs Hd E | err evs Hn E | err evs Hn E | err evs E
       | news err evs E | msg evs E | n more err evs E | n more evs E];
    rewrite E in *.
  - exfalso. apply in_app_iff in Hin. destruct Hin as [Hin | [<- | []]].
    + apply in_map_iff in Hin. destruct Hin as (e & <- & _). discriminate.
    + discriminate.
  - exfalso. apply in_app_iff in Hin. destruct Hin as [Hin | [<- | []]].
    + apply in_map_iff in Hin. destruct Hin as (e & <- & _). discriminate.
    + discriminate.
  - exfalso. apply in_app_iff in Hin. destruct Hin as [Hin | [<- | [<- | []]]].
    + apply in_map_iff in Hin. destruct Hin as (e & <- & _). discriminate.
    + discriminate.
    + discriminate.
  - exfalso. locate_event Hin; try discriminate;
      destruct (request ev); discriminate.
  - locate_event Hin; try discriminate;
      try (destruct (request ev); discriminate).
    exists news, []. repeat split. constructor.
  - locate_event Hin; try discriminate;
      try (destruct (request ev); discriminate).
    exists [], []. repeat split. constructor.
  - locate_event Hin; try discriminate;
      try (destruct (request ev); discriminate).
    exists (n :: more), [copyEvent instance n (AErr err)]. repeat split.
    repeat constructor.
  - locate_event Hin; try discriminate;
      try (destruct (request ev); discriminate).
    exists (n :: more), [copyEvent instance n ADone]. repeat split.
    repeat constructor.
Qed.

Lemma terminate_only_after_launch_witness :
  exists news rest,
    events (scripted scenario3) (upgradeInstance "ami-new" i3) 0 =
      (upgradePrelude i3
       ++ runEvent "ami-new" i3 (AInstances news)
       :: terminateEvent i3 ADone :: rest)%list /\
    Forall (fun e => isTerminate (request e) = false) rest.
Proof.
  destruct (terminate_only_after_launch nat (scripted scenario3) 0 "ami-new" i3
              (terminateEvent i3 ADone)) as (news & rest & E & _ & Hrest).
  - vm_compute. do 4 right. left. reflexivity.
  - reflexivity.
  - exists news, rest. split; assumption.
Defined.

Ltac log_facts :=
  repeat (rewrite Forall_app || rewrite Forall_cons_iff);
  unfold succeeded, launched_one, failure, snapshotEvent, runEvent,
         terminateEvent, copyEvent; cbn [answer].

(** X2.  [upgradeInstance] returns nil exactly when every call it made
    succeeded and the launch returned an instance.  When it returns an
    error, the failed call is the last call it made, every earlier call
    succeeded, and the error is the provider's error wrapped with the
    context of the stage of the failed call. *)
Theorem upgradeInstance_error_table (W : Type)
    (handle : W -> forall q : Request, W * Response q) (w : W)
    (newAMI : string) (instance : Instance) :
  let evs := events handle (upgradeInstance newAMI instance) w in
  let o := result_of handle (upgradeInstance newAMI instance) w in
  (o = Returned None <-> Forall succeeded evs /\ Forall launched_one evs) /\
  (forall e, o = Returned (Some e) ->
     exists pre ev err,
       evs = (pre ++ [ev])%list /\ Forall succeeded pre /\
       failure ev = Some err /\
       e = wrapError (stagePrefix (request ev) ++ Error err) err).
Proof.
  cbv zeta.
  pose proof (upgradePrelude_succeeded instance) as (Hps & Hpl).
  destruct (upgradeInstance_run handle newAMI instance w)
    as [pre ebs post err evs Hd E | err evs Hn E | err evs Hn E | err evs E
       | news err evs E | msg evs E | n more err evs E | n more evs E];
    rewrite E; clear E; split.
  - split; [discriminate|]. log_facts. intuition discriminate.
  - intros e [= <-]. exists (map (snapshotEvent instance ADone) pre). eexists. exists err.
    repeat split. apply Forall_forall. intros ev Hin.
    apply in_map_iff in Hin. destruct Hin as (x & <- & _). reflexivity.
  - split; [discriminate|]. log_facts. intuition discriminate.
  - intros e [= <-].
    exists (map (snapshotEvent instance ADone)
                (ebsDevices (BlockDeviceMappings instance))). eexists. exists err.
    repeat split. apply Forall_forall. intros ev Hin.
    apply in_map_iff in Hin. destruct Hin as (x & <- & _). reflexivity.
  - split; [discriminate|]. log_facts. intuition discriminate.
  - intros e [= <-].
    exists (map (snapshotEvent instance ADone)
                (ebsDevices (BlockDeviceMappings instance))
            ++ [mkEvent (StopInstances [ToString (InstanceId instance)]) ADone])%list. eexists. exists err.
    split; [rewrite <- app_assoc; reflexivity|]. repeat split.
    apply Forall_app. split; [|repeat constructor].
    apply Forall_forall. intros ev Hin.
    apply in_map_iff in Hin. destruct Hin as (x & <- & _). reflexivity.
  - split; [discriminate|]. log_facts. intuition discriminate.
  - intros e [= <-]. exists (upgradePrelude instance). eexists. exists err. repeat split. exact Hps.
  - split; [discriminate|]. log_facts. intuition discriminate.
  - intros e [= <-].
    exists (upgradePrelude instance ++ [runEvent newAMI instance (AInstances news)])%list. eexists. exists err.
    split; [rewrite <- app_assoc; reflexivity|]. repeat split.
    apply Forall_app. split; [exact Hps | repeat constructor].
  - split; [discriminate|]. log_facts. intuition congruence.
  - discriminate.
  - split; [discriminate|]. log_facts. intuition discriminate.
  - intros e [= <-].
    exists (upgradePrelude instance
            ++ [runEvent newAMI instance (AInstances (n :: more));
                terminateEvent instance ADone])%list. eexists. exists err.
    split; [rewrite <- app_assoc; reflexivity|]. repeat split.
    apply Forall_app. split; [exact Hps | repeat constructor].
  - split; [|reflexivity]. intros _. log_facts.
    repeat split; auto; discriminate.
  - discriminate.
Qed.

Example upgradeInstance_error_table_scenario :
  result_of (scripted scenario2Failing) (upgradeInstance "ami-new" i2) 0 =
  Returned (Some (wrapError
                    "create snapshot: SnapshotCreationPerVolumeRateExceeded"
                    snapshotFailed)).
Proof. reflexivity. Qed.

(** X3.  [upgradeInstance] panics exactly when [RunInstances] succeeded
    with no instance and the termination of the source then succeeded:
    the source is terminated although no replacement exists. *)
Theorem empty_launch_terminates_source (W : Type)
    (handle : W -> forall q : Request, W * Response q) (w : W)
    (newAMI : string) (instance : Instance) :
  let evs := events handle (upgradeInstance newAMI instance) w in
  (exists msg, result_of handle (upgradeInstance newAMI instance) w = Panicked msg) <->
  In (runEvent newAMI instance (AInstances [])) evs /\
  In (terminateEvent instance ADone) evs.
Proof.
  cbv zeta.
  destruct (upgradeInstance_run handle newAMI instance w)
    as [pre ebs post err evs Hd E | err evs Hn E | err evs Hn E | err evs E
       | news err evs E | msg evs E | n more err evs E | n more evs E];
    rewrite E; clear E; (split; [intros (msg' & Hm); try discriminate | intros (Hr & Ht)]).
  - exfalso. apply in_app_iff in Hr. destruct Hr as [Hr | [Hr | []]].
    + apply in_map_iff in Hr. destruct Hr as (e & He & _). discriminate.
    + discriminate.
  - exfalso. apply in_app_iff in Hr. destruct Hr as [Hr | [Hr | []]].
    + apply in_map_iff in Hr. destruct Hr as (e & He & _). discriminate.
    + discriminate.
  - exfalso. apply in_app_iff in Hr. destruct Hr as [Hr | [Hr | [Hr | []]]].
    + apply in_map_iff in Hr. destruct Hr as (e & He & _). discriminate.
    + discriminate.
    + discriminate.
  - exfalso. apply in_app_iff in Hr. destruct Hr as [Hr | [Hr | []]].
    + apply in_upgradePrelude in Hr. destruct Hr as (Ha & _). discriminate.
    + discriminate.
  - exfalso. apply in_app_iff in Ht. destruct Ht as [Ht | [Ht | [Ht | []]]].
    + apply in_upgradePrelude in Ht. destruct Ht as (_ & [Hq | Hq]); discriminate.
    + discriminate.
    + discriminate.
  - split; apply in_app_iff; right; simpl; auto.
  - exists msg. reflexivity.
  - exfalso. apply in_app_iff in Hr. destruct Hr as [Hr | [Hr | [Hr | [Hr | []]]]].
    + apply in_upgradePrelude in Hr. destruct Hr as (Ha & _). discriminate.
    + discriminate.
    + discriminate.
    + discriminate.
  - exfalso. apply in_app_iff in Hr. destruct Hr as [Hr | [Hr | [Hr | [Hr | []]]]].
    + apply in_upgradePrelude in Hr. destruct Hr as (Ha & _). discriminate.
    + discriminate.
    + discriminate.
    + discriminate.
Qed.

Example empty_launch_scenario :
  map request (events (scripted scenarioNoLaunch) (upgradeInstance "ami-new" i2) 0) =
    [ CreateSnapshot (snapshotInput i2 (mkEbs (Some "vol-a")));
      CreateSnapshot (snapshotInput i2 (mkEbs (Some "vol-b")));
      RunInstances (runInput "ami-new" i2);
      TerminateInstances ["i-2"] ] /\
  result_of (scripted scenarioNoLaunch) (upgradeInstance "ami-new" i2) 0 =
    Panicked "index out of range [0] with length 0".
Proof. split; reflexivity. Qed.

(** ** The task around [upgradeInstance] *)

Section TaskRuns.
Context {W : Type}.
Variable handle : W -> forall q : Request, W * Response q.

(** A task as [MigrateInstances] starts it: the [in-progress] status
    write, the run of [upgradeInstance], and the status write that
    reports its result, if it did not panic. *)
Lemma task_decomposition (newAMI : string) (instance : Instance) (w : W) :
  let task := migrateTask newAMI instance (snd (shouldMigrateInstance instance)) in
  let w1 := world_after handle
              (tagInstanceStatus instance "in-progress" "Starting migration") w in
  let w2 := world_after handle (upgradeInstance newAMI instance) w1 in
  exists a1 tail,
    doneOrFailed a1 /\
    events handle task w =
      (statusEvents instance "in-progress" "Starting migration"
         (snd (handle w (NowUTCFormat RFC3339))) a1
       ++ events handle (upgradeInstance newAMI instance) w1 ++ tail)%list /\
    match result_of handle (upgradeInstance newAMI instance) w1 with
    | Returned u =>
        result_of handle task w = Returned tt /\
        exists a2,
          doneOrFailed a2 /\
          tail = statusEvents instance
                   (match u with Some _ => "failed" | None => "completed" end)
                   (match u with
                    | Some err => Sprintf_v "Failed to upgrade instance: " err
                    | None => "Migration completed successfully"
                    end)
                   (snd (handle w2 (NowUTCFormat RFC3339))) a2
    | Panicked msg => result_of handle task w = Panicked msg /\ tail = []
    end.
Proof.
  cbv zeta. rewrite shouldMigrateInstance_needsStart.
  pose proof (runs_exec handle (migrateTask newAMI instance false) w) as H.
  revert H.
  generalize (events handle (migrateTask newAMI instance false) w) as evs.
  generalize (result_of handle (migrateTask newAMI instance false) w) as o.
  generalize (world_after handle (migrateTask newAMI instance false) w) as w9.
  intros w9 o evs H.
  unfold migrateTask, upgradeTask in H. cbn [andb] in H.
  apply runs_bind in H. destruct H as (w1 & evs1 & o1 & H1 & H).
  pose proof (runs_unique handle _ _ _ _ _ H1) as (_ & _ & Hw1).
  apply runs_tagInstanceStatus in H1. destruct H1 as (a1 & r1 & -> & -> & Ha1).
  destruct H as (evs2 & H & ->). rewrite <- Hw1. clear Hw1.
  apply runs_bind in H. destruct H as (w2 & evsU & oU & HU & H).
  pose proof (runs_unique handle _ _ _ _ _ HU) as (HevU & HoU & Hw2).
  rewrite <- HevU, <- HoU, <- Hw2. clear HevU HoU Hw2 HU.
  destruct oU as [u | msg].
  - destruct H as (evs4 & H & ->).
    assert (Hrep : exists a2, doneOrFailed a2 /\
              evs4 = statusEvents instance
                       (match u with Some _ => "failed" | None => "completed" end)
                       (match u with
                        | Some err => Sprintf_v "Failed to upgrade instance: " err
                        | None => "Migration completed successfully"
                        end)
                       (snd (handle w2 (NowUTCFormat RFC3339))) a2 /\
              o = Returned tt).
    { unfold completeTask in H.
      destruct u as [err|]; apply runs_bind in H;
        destruct H as (w3 & evs3 & o3 & H3 & H);
        apply runs_tagInstanceStatus in H3;
        destruct H3 as (a2 & r2 & -> & -> & Ha2);
        destruct H as (evs5 & H & ->); apply runs_ret in H;
        destruct H as (-> & -> & _); exists a2; rewrite app_nil_r; auto. }
    destruct Hrep as (a2 & Ha2 & -> & ->).
    exists a1. eexists. split; [exact Ha1|]. split; [reflexivity|].
    split; [reflexivity|]. exists a2. auto.
  - destruct H as (-> & -> & _). exists a1, []. rewrite app_nil_r. auto.
Qed.
End TaskRuns.

Lemma auditOf_status (q : Request) (a : Audit) :
  In a (auditOf q) ->
  exists input v rest,
    q = CreateTags input /\
    TagsToCreate input = mkTag (Some "ami-migrate-status") v :: rest.
Proof.
  unfold auditOf. intros H.
  repeat match type of H with
         | In _ (match ?x with _ => _ end) => destruct x eqn:?; try contradiction
         | In _ (if ?c then _ else _) => destruct c eqn:?; try contradiction
         end.
  repeat match goal with
         | E : (_ && _)%bool = true |- _ =>
             apply andb_true_iff in E; destruct E as (? & ?)
         | E : (_ =? _) = true |- _ => apply String.eqb_eq in E
         end.
  subst. do 3 eexists. split; reflexivity.
Qed.

Lemma auditOf_copy (resources : list string) (tags : list Tag) :
  auditOf (CreateTags (mkCreateTagsInput resources (tagsToCopy tags))) = [].
Proof.
  destruct (auditOf _) as [|a l] eqn:E; [reflexivity|]. exfalso.
  assert (Hin : In a (auditOf (CreateTags (mkCreateTagsInput resources (tagsToCopy tags)))))
    by (rewrite E; left; reflexivity).
  apply auditOf_status in Hin. destruct Hin as (input & v & rest & [= <-] & Ht).
  simpl in Ht.
  assert (Hc : In (mkTag (Some "ami-migrate-status") v) (tagsToCopy tags))
    by (rewrite Ht; left; reflexivity).
  apply tagsToCopy_In in Hc. destruct Hc as (_ & Hk). apply Hk. reflexivity.
Qed.

Lemma audits_app (l1 l2 : list Request) :
  audits (l1 ++ l2) = (audits l1 ++ audits l2)%list.
Proof. apply flat_map_app. Qed.

Lemma audits_snapshots (instance : Instance) (a : Answer)
    (l : list EbsInstanceBlockDevice) :
  audits (map request (map (snapshotEvent instance a) l)) = [].
Proof. induction l as [|e l IH]; [reflexivity | exact IH]. Qed.

Lemma audits_upgradePrelude (instance : Instance) :
  audits (map request (upgradePrelude instance)) = [].
Proof.
  unfold upgradePrelude, stopPrelude. rewrite map_app, audits_app.
  rewrite audits_snapshots.
  destruct (Name (State instance) =? InstanceStateNameRunning); reflexivity.
Qed.

(** [upgradeInstance] writes no status. *)
Lemma audits_upgradeInstance {W : Type}
    (handle : W -> forall q : Request, W * Response q) (w : W)
    (newAMI : string) (instance : Instance) :
  audits (map request (events handle (upgradeInstance newAMI instance) w)) = [].
Proof.
  destruct (upgradeInstance_run handle newAMI instance w)
    as [pre ebs post err evs Hd E | err evs Hn E | err evs Hn E | err evs E
       | news err evs E | msg evs E | n more err evs E | n more evs E];
    rewrite E; clear E; rewrite map_app, audits_app;
    rewrite ?audits_upgradePrelude, ?audits_snapshots;
    unfold audits, runEvent, terminateEvent, copyEvent;
    cbn [map flat_map request]; rewrite ?auditOf_copy; reflexivity.
Qed.

Lemma audits_statusEvents (instance : Instance) (status message now : string)
    (a : Answer) :
  audits (map request (statusEvents instance status message now a)) =
  [([ToString (InstanceId instance)], status, message)].
Proof. reflexivity. Qed.

(** X4.  The status writes of a task, whatever the provider answers:
    first [in-progress], then, unless [upgradeInstance] panicked, one
    more: [completed] if [upgradeInstance] returned nil, and [failed]
    with the description of its error otherwise.  Both are made on the
    source instance, and the task writes no other status. *)
Theorem task_audit_trail (W : Type)
    (handle : W -> forall q : Request, W * Response q) (w : W)
    (newAMI : string) (instance : Instance) :
  let task := migrateTask newAMI instance (snd (shouldMigrateInstance instance)) in
  let w1 := world_after handle
              (tagInstanceStatus instance "in-progress" "Starting migration") w in
  let id := ToString (InstanceId instance) in
  audits (map request (events handle task w)) =
  ([id], "in-progress", "Starting migration")
  :: match result_of handle (upgradeInstance newAMI instance) w1 with
     | Returned None => [([id], "completed", "Migration completed successfully")]
     | Returned (Some err) =>
         [([id], "failed", "Failed to upgrade instance: " ++ Error err)]
     | Panicked _ => []
     end.
Proof.
  cbv zeta.
  destruct (task_decomposition handle newAMI instance w) as (a1 & tail & _ & E & H).
  rewrite E, !map_app, !audits_app, audits_upgradeInstance, audits_statusEvents.
  destruct (result_of handle (upgradeInstance newAMI instance) _) as [[err|]|msg].
  - destruct H as (_ & a2 & _ & ->). rewrite audits_statusEvents. reflexivity.
  - destruct H as (_ & a2 & _ & ->). rewrite audits_statusEvents. reflexivity.
  - destruct H as (_ & ->). reflexivity.
Qed.

Lemma upgradeRun_succeeded (newAMI : string) (instance : Instance)
    (evs : list Event) (o : outcome (option error)) :
  upgradeRun newAMI instance evs o ->
  Forall succeeded evs -> Forall launched_one evs ->
  exists newInstance more,
    evs = (upgradePrelude instance
           ++ [runEvent newAMI instance (AInstances (newInstance :: more));
               terminateEvent instance ADone;
               copyEvent instance newInstance ADone])%list /\
    o = Returned None.
Proof.
  intros [pre ebs post err evs' Hd E | err evs' Hn E | err evs' Hn E | err evs' E
         | news err evs' E | msg evs' E | n more err evs' E | n more evs' E];
    rewrite E; clear E; intros Hs Hl;
    try (exfalso; revert Hs Hl; log_facts; intuition congruence).
  exists n, more. auto.
Qed.

(** X5.  The task of a running instance, when every call succeeds and
    the launch returns an instance: after the [in-progress] status write
    it snapshots every EBS device, stops the instance and waits until it
    is stopped, launches the replacement, terminates the source, copies
    the tags, and writes [completed]. *)
Theorem migrateTask_running_instance (W : Type)
    (handle : W -> forall q : Request, W * Response q) (w : W)
    (newAMI : string) (instance : Instance) :
  let task := migrateTask newAMI instance (snd (shouldMigrateInstance instance)) in
  let id := ToString (InstanceId instance) in
  Name (State instance) = "running" ->
  Forall succeeded (events handle task w) ->
  Forall launched_one (events handle task w) ->
  exists now1 now2 newInstance more,
    events handle task w =
      (statusEvents instance "in-progress" "Starting migration" now1 ADone
       ++ map (snapshotEvent instance ADone)
              (ebsDevices (BlockDeviceMappings instance))
       ++ [ mkEvent (StopInstances [id]) ADone;
            mkEvent (InstanceStoppedWaiter [id]) ADone;
            mkEvent (RunInstances (runInput newAMI instance))
                    (AInstances (newInstance :: more));
            mkEvent (TerminateInstances [id]) ADone;
            mkEvent (CreateTags (mkCreateTagsInput
                                   [ToString (InstanceId newInstance)]
                                   (tagsToCopy (Tags instance)))) ADone ]
       ++ statusEvents instance "completed" "Migration completed successfully"
            now2 ADone)%list /\
    result_of handle task w = Returned tt.
Proof.
  cbv zeta. intros Hrun Hok Hone.
  destruct (task_decomposition handle newAMI instance w)
    as (a1 & tail & Ha1 & E & H).
  rewrite E in Hok, Hone. rewrite E. clear E.
  apply Forall_app in Hok, Hone. destruct Hok as (Hok1 & Hok), Hone as (_ & Hone).
  apply Forall_app in Hok, Hone. destruct Hok as (HokU & HokT), Hone as (HoneU & _).
  destruct (upgradeRun_succeeded _ _ _ _
              (upgradeInstance_run handle newAMI instance _) HokU HoneU)
    as (n & more & EU & Hres).
  rewrite EU. rewrite Hres in H. destruct H as (Hret & a2 & Ha2 & ->).
  assert (a1 = ADone) as ->.
  { destruct a1; try contradiction; [|reflexivity].
    exfalso. revert Hok1. unfold statusEvents. log_facts. intuition discriminate. }
  assert (a2 = ADone) as ->.
  { destruct a2; try contradiction; [|reflexivity].
    exfalso. revert HokT. unfold statusEvents. log_facts. intuition discriminate. }
  do 2 eexists. exists n, more. split; [|exact Hret].
  apply String.eqb_eq in Hrun.
  rewrite upgradePrelude_running by exact Hrun.
  rewrite <- app_assoc. reflexivity.
Qed.

Lemma migrateTask_running_instance_witness :
  exists now1 now2 newInstance more,
    events (scripted scenario3)
           (migrateTask "ami-new" i3 (snd (shouldMigrateInstance i3))) 0 =
      (statusEvents i3 "in-progress" "Starting migration" now1 ADone
       ++ map (snapshotEvent i3 ADone) (ebsDevices (BlockDeviceMappings i3))
       ++ [ mkEvent (StopInstances ["i-3"]) ADone;
            mkEvent (InstanceStoppedWaiter ["i-3"]) ADone;
            mkEvent (RunInstances (runInput "ami-new" i3))
                    (AInstances (newInstance :: more));
            mkEvent (TerminateInstances ["i-3"]) ADone;
            mkEvent (CreateTags (mkCreateTagsInput
                                   [ToString (InstanceId newInstance)]
                                   (tagsToCopy (Tags i3)))) ADone ]
       ++ statusEvents i3 "completed" "Migration completed successfully"
            now2 ADone)%list /\
    result_of (scripted scenario3)
              (migrateTask "ami-new" i3 (snd (shouldMigrateInstance i3))) 0
    = Returned tt.
Proof.
  apply (migrateTask_running_instance nat (scripted scenario3) 0 "ami-new" i3).
  - reflexivity.
  - vm_compute. repeat constructor.
  - vm_compute. repeat (constructor; try discriminate).
Defined.

(** ** The join of the tasks *)

Lemma joined_inMain {R S : Type} (pending : bool) (p : ec2 R) (f : R -> goroutine S) :
  (forall r, joined pending (f r)) -> joined pending (bind (inMain p) f).
Proof.
  intros Hf. induction p as [r | q k IH | msg]; simpl; auto.
Qed.

Lemma joined_migrateLoop {S : Type} (newAMI : string) (instances : list Instance)
    (K : goroutine S) :
  (forall pending, joined pending K) ->
  forall pending, joined pending (migrateLoop newAMI instances ;;; K).
Proof.
  intros HK. induction instances as [|instance rest IH]; intros pending; simpl.
  - apply HK.
  - destruct (shouldMigrateInstance instance) as [shouldMigrate needsStart].
    destruct shouldMigrate; simpl.
    + apply IH.
    + intros now r. apply IH.
Qed.

Lemma joined_MigrateInstances (oldAMI newAMI enabledValue : string) :
  joined false (MigrateInstances oldAMI newAMI enabledValue).
Proof.
  unfold MigrateInstances. apply joined_inMain. intros [instances | err]; simpl.
  - destruct instances as [|instance rest]; [reflexivity|].
    cbn [len_is_zero]. apply joined_migrateLoop. intros pending. reflexivity.
  - reflexivity.
Qed.

Lemma forallb_finished_nth (ts : list (ec2 unit)) (i : nat) (t : ec2 unit) :
  forallb finished ts = true -> nth_error ts i = Some t -> finished t = true.
Proof.
  intros H Hn. rewrite forallb_forall in H. apply H.
  eapply nth_error_In, Hn.
Qed.

Section Join.
Context {W : Type}.
Variable handle : W -> forall q : Request, W * Response q.
Context {R : Type}.

Local Abbreviation waited s :=
  (exists pending, joined pending (mainG s) /\
                   (pending = false -> forallb finished (pool s) = true)).

Lemma step_joined (c : nat) (s : process W R) : waited s -> waited (step handle c s).
Proof.
  intros (pending & Hj & Hp). unfold step.
  destruct (nth_error (runnable s) _) as [[|i]|]; simpl;
    [| |exists pending; auto].
  - unfold step_main. destruct (mainG s) as [r | [q | task |] k | msg] eqn:Em;
      simpl in Hj.
    + exists pending. rewrite Em. auto.
    + destruct (handle (world s) q) as [w1 x]. exists pending. simpl. auto.
    + exists true. simpl. split; [exact Hj | discriminate].
    + destruct (forallb finished (pool s)) eqn:Ef.
      * exists false. simpl. split; [exact Hj | intros _; reflexivity || exact Ef].
      * exists pending. rewrite Em. split; [simpl; exact Hj | rewrite Ef; exact Hp].
    + exists pending. simpl. auto.
  - unfold step_task. destruct (nth_error (pool s) i) as [[r | q k | msg]|] eqn:Ei;
      try (exists pending; auto; fail).
    + destruct (handle (world s) q) as [w1 x]. exists pending. simpl.
      split; [exact Hj|]. intros Hf. specialize (Hp Hf).
      pose proof (forallb_finished_nth _ _ _ Hp Ei). discriminate.
Qed.

Lemma run_joined (schedule : list nat) (s : process W R) :
  waited s -> waited (run handle schedule s).
Proof.
  revert s. induction schedule as [|c rest IH]; intros s H; simpl; [exact H|].
  apply IH, step_joined, H.
Qed.
End Join.

(** X6.  When [MigrateInstances] has returned, every task it started
    has run to its end: the call returns only after [wg.Wait()], and
    [wg.Wait()] only returns when no task is left running. *)
Theorem MigrateInstances_joins_tasks (W : Type)
    (handle : W -> forall q : Request, W * Response q) (w : W)
    (oldAMI newAMI enabledValue : string) (schedule : list nat) (e : option error) :
  let s := run handle schedule
               (start w (MigrateInstances oldAMI newAMI enabledValue)) in
  returned s = Some e ->
  Forall (fun task => finished task = true) (pool s) /\
  length (pool s) = length (launched s).
Proof.
  cbv zeta. intros Hret.
  split; [|apply run_pool_length; reflexivity].
  destruct (run_joined handle schedule
              (start w (MigrateInstances oldAMI newAMI enabledValue)))
    as (pending & Hj & Hp).
  { exists false. split; [apply joined_MigrateInstances | reflexivity]. }
  unfold returned in Hret. destruct (crashed _); [discriminate|].
  destruct (mainG _) as [r | g k | msg]; try discriminate.
  simpl in Hj. apply Forall_forall. intros task Hin.
  specialize (Hp Hj). rewrite forallb_forall in Hp. apply Hp, Hin.
Qed.

Lemma MigrateInstances_joins_tasks_witness :
  let s := run (scripted scenarioFleet) (repeat 0 40)
               (start 0 (MigrateInstances "ami-old" "ami-new" "enabled")) in
  Forall (fun task => finished task = true) (pool s) /\
  length (pool s) = length (launched s).
Proof.
  cbv zeta.
  apply (MigrateInstances_joins_tasks nat (scripted scenarioFleet) 0
           "ami-old" "ami-new" "enabled" (repeat 0 40) None).
  reflexivity.
Defined.

(** ** The eligibility query *)

Lemma appendReservations_concat (instances : list Instance) (rs : list Reservation) :
  appendReservations instances rs =
  (instances ++ concat (map ReservationInstances rs))%list.
Proof.
  revert instances. induction rs as [|r rest IH]; intros instances; simpl.
  - symmetry. apply app_nil_r.
  - rewrite IH, <- app_assoc. reflexivity.
Qed.

(** X7.  [fetchEnabledInstances] asks the provider once, for the
    instances whose tag [ami-migrate] has the given value.  It returns
    the instances of all reservations of the answer, reservation after
    reservation and in the order of each, so that an instance is
    returned exactly when a reservation holds it; a provider error is
    returned as it is, with no instance. *)
Theorem fetchEnabledInstances_flattens (W : Type)
    (handle : W -> forall q : Request, W * Response q) (w : W)
    (enabledValue : string) :
  let q := DescribeInstances [mkFilter (Some "tag:ami-migrate") [enabledValue]] in
  map request (events handle (fetchEnabledInstances enabledValue) w) = [q] /\
  match snd (handle w q) with
  | Ok reservations =>
      result_of handle (fetchEnabledInstances enabledValue) w =
        Returned (Ok (concat (map ReservationInstances reservations))) /\
      (forall instance,
         In instance (concat (map ReservationInstances reservations)) <->
         exists reservation,
           In reservation reservations /\
           In instance (ReservationInstances reservation))
  | Err err =>
      result_of handle (fetchEnabledInstances enabledValue) w = Returned (Err err)
  end.
Proof.
  cbv zeta. unfold events, result_of, fetchEnabledInstances. simpl.
  destruct (handle w _) as [w1 [reservations | err]]; simpl;
    (split; [reflexivity|]); [|reflexivity].
  split; [rewrite appendReservations_concat; reflexivity|].
  intros instance. rewrite in_concat. split.
  - intros (l & Hl & Hin). apply in_map_iff in Hl.
    destruct Hl as (reservation & <- & Hr). exists reservation. auto.
  - intros (reservation & Hr & Hin). exists (ReservationInstances reservation).
    split; [apply in_map, Hr | exact Hin].
Qed.

(** ** Starting and stopping an instance *)

(** X8.  [stopInstance] and [startInstance] call the provider and then
    wait for the state; the waiter is only consulted when the call
    succeeded.  Each returns nil exactly when both succeeded, and
    otherwise the error of the step that failed, as it is. *)
Theorem lifecycle_waits_after_call (W : Type)
    (handle : W -> forall q : Request, W * Response q) (w : W)
    (instance : Instance) :
  let id := ToString (InstanceId instance) in
  let stopped := events handle (stopInstance instance) w in
  let started := events handle (startInstance instance) w in
  (exists r, result_of handle (stopInstance instance) w = Returned r) /\
  (result_of handle (stopInstance instance) w = Returned None <->
   stopped = [mkEvent (StopInstances [id]) ADone;
              mkEvent (InstanceStoppedWaiter [id]) ADone]) /\
  (forall err,
     result_of handle (stopInstance instance) w = Returned (Some err) <->
     stopped = [mkEvent (StopInstances [id]) (AErr err)] \/
     stopped = [mkEvent (StopInstances [id]) ADone;
                mkEvent (InstanceStoppedWaiter [id]) (AErr err)]) /\
  (exists r, result_of handle (startInstance instance) w = Returned r) /\
  (result_of handle (startInstance instance) w = Returned None <->
   started = [mkEvent (StartInstances [id]) ADone;
              mkEvent (InstanceRunningWaiter [id]) ADone]) /\
  (forall err,
     result_of handle (startInstance instance) w = Returned (Some err) <->
     started = [mkEvent (StartInstances [id]) (AErr err)] \/
     started = [mkEvent (StartInstances [id]) ADone;
                mkEvent (InstanceRunningWaiter [id]) (AErr err)]).
Proof.
  cbv zeta. unfold events, result_of, stopInstance, startInstance. simpl.
  split; [|split; [|split; [|split; [|split]]]].
  - destruct (handle w (StopInstances _)) as [w1 [u | e]]; simpl;
      [destruct (handle w1 _) as [w2 [u' | e]]; simpl|]; eexists; reflexivity.
  - destruct (handle w (StopInstances _)) as [w1 [u | e]]; simpl;
      [destruct (handle w1 _) as [w2 [u' | e]]; simpl|];
      split; intros H; try reflexivity; discriminate.
  - intros err. destruct (handle w (StopInstances _)) as [w1 [u | e]]; simpl;
      [destruct (handle w1 _) as [w2 [u' | e]]; simpl|];
      (split; [intros [= ->]; auto | intros [[= ->] | [= ->]]; reflexivity])
      || (split; [discriminate | intros [H | H]; discriminate]).
  - destruct (handle w (StartInstances _)) as [w1 [u | e]]; simpl;
      [destruct (handle w1 _) as [w2 [u' | e]]; simpl|]; eexists; reflexivity.
  - destruct (handle w (StartInstances _)) as [w1 [u | e]]; simpl;
      [destruct (handle w1 _) as [w2 [u' | e]]; simpl|];
      split; intros H; try reflexivity; discriminate.
  - intros err. destruct (handle w (StartInstances _)) as [w1 [u | e]]; simpl;
      [destruct (handle w1 _) as [w2 [u' | e]]; simpl|];
      (split; [intros [= ->]; auto | intros [[= ->] | [= ->]]; reflexivity])
      || (split; [discriminate | intros [H | H]; discriminate]).
Qed.

(** ** Tag copy and eligibility *)

Lemma hasIfRunningTag_tagsToCopy (tags : list Tag) :
  hasIfRunningTag (tagsToCopy tags) = hasIfRunningTag tags.
Proof.
  induction tags as [|t rest IH]; simpl; [reflexivity|].
  destruct (ToString (Key t) =? "ami-migrate-status") eqn:Es.
  - apply String.eqb_eq in Es. rewrite Es. simpl. exact IH.
  - simpl. rewrite IH. reflexivity.
Qed.

Lemma tagsToCopy_idempotent (tags : list Tag) :
  tagsToCopy (tagsToCopy tags) = tagsToCopy tags.
Proof.
  induction tags as [|t rest IH]; simpl; [reflexivity|].
  destruct (ToString (Key t) =? "ami-migrate-status") eqn:Es; [exact IH|].
  simpl. rewrite Es, IH. reflexivity.
Qed.

(** X9.  The eligibility decision reads the tags only through
    [ami-migrate-if-running], which the tag copy keeps: an instance that
    carries the copied tags of a source gets the decision the source
    would get in the same state.  Copying the tags of a copy changes
    nothing. *)
Theorem copied_tags_keep_eligibility
    (id id' : option string) (state : InstanceState) (type type' : string)
    (mappings mappings' : list InstanceBlockDeviceMapping) (tags : list Tag) :
  shouldMigrateInstance (mkInstance id' state type' mappings' (tagsToCopy tags)) =
  shouldMigrateInstance (mkInstance id state type mappings tags) /\
  tagsToCopy (tagsToCopy tags) = tagsToCopy tags.
Proof.
  split; [|apply tagsToCopy_idempotent].
  unfold shouldMigrateInstance. simpl. rewrite hasIfRunningTag_tagsToCopy.
  reflexivity.
Qed.

(** ** Runs that end early, and runs that end *)

(** X10.  When the eligibility query fails, every run that has taken a
    step has returned the error wrapped with [fetch instances: ], has
    started no task and has made no request but the query. *)
Theorem selection_error_aborts (W : Type)
    (handle : W -> forall q : Request, W * Response q) (w : W)
    (oldAMI newAMI enabledValue : string) (err : error) (schedule : list nat) :
  snd (handle w (fetchRequest enabledValue)) = Err err ->
  schedule <> [] ->
  let s := run handle schedule
               (start w (MigrateInstances oldAMI newAMI enabledValue)) in
  returned s = Some (Some (wrapError ("fetch instances: " ++ Error err) err)) /\
  log s = [(0, mkEvent (fetchRequest enabledValue) (AErr err))] /\
  launched s = [] /\ pool s = [].
Proof.
  intros Hq Hs. destruct schedule as [|c rest]; [contradiction|].
  cbv zeta. rewrite run_from_start.
  assert (E : fetchedProcess handle w newAMI enabledValue =
              mkProcess (fst (handle w (fetchRequest enabledValue)))
                (Ret (Some (Errorf_w "fetch instances: " err))) [] []
                [(0, mkEvent (fetchRequest enabledValue) (AErr err))] false).
  { unfold fetchedProcess. cbv zeta. rewrite Hq. reflexivity. }
  rewrite E, run_stuck by reflexivity. repeat split.
Qed.

Lemma selection_error_aborts_witness :
  let s := run unreachable [0; 1; 2]
               (start 0 (MigrateInstances "ami-old" "ami-new" "enabled")) in
  returned s =
    Some (Some (wrapError "fetch instances: RequestTimeout"
                          (errorString "RequestTimeout"))) /\
  log s = [(0, mkEvent (fetchRequest "enabled") (AErr (errorString "RequestTimeout")))] /\
  launched s = [] /\ pool s = [].
Proof.
  apply (selection_error_aborts nat unreachable 0 "ami-old" "ami-new" "enabled"
           (errorString "RequestTimeout") [0; 1; 2]).
  - reflexivity.
  - discriminate.
Defined.

Lemma loopBound_sum (instances : list Instance) :
  loopBound instances =
  list_sum (map (fun instance => length (BlockDeviceMappings instance) + 15)
                instances).
Proof.
  induction instances as [|i rest IH]; simpl; [reflexivity|].
  unfold taskBound. rewrite <- IH. lia.
Qed.

(** X11.  [MigrateInstances] never hangs: whatever the provider
    answers, every schedule of at least two steps plus, for each fetched
    instance, two steps and the steps of its task (fifteen and one for
    each block device mapping), ends with no goroutine left to run: the
    call has returned, or a panic has ended the process. *)
Theorem MigrateInstances_never_hangs (W : Type)
    (handle : W -> forall q : Request, W * Response q) (w : W)
    (oldAMI newAMI enabledValue : string) (schedule : list nat) :
  let s := run handle schedule
               (start w (MigrateInstances oldAMI newAMI enabledValue)) in
  let bound :=
    match fetched (snd (handle w (fetchRequest enabledValue))) with
    | Ok instances =>
        2 + list_sum (map (fun instance =>
                             length (BlockDeviceMappings instance) + 15) instances)
    | Err _ => 1
    end in
  bound <= length schedule ->
  runnable s = [] /\ (crashed s = true \/ exists e, returned s = Some e).
Proof.
  cbv zeta. intros Hlen.
  assert (Hb : S (migrateBound (fetched (snd (handle w (fetchRequest enabledValue)))))
               <= length schedule).
  { destruct (fetched _) as [instances | err]; unfold migrateBound; [|exact Hlen].
    rewrite loopBound_sum, Nat.add_1_r. exact Hlen. }
  destruct schedule as [|c rest]; [cbn [length] in Hb; lia|].
  assert (Hrun : runnable (run handle (c :: rest)
                   (start w (MigrateInstances oldAMI newAMI enabledValue))) = []).
  { rewrite run_from_start.
    eapply run_exhausts; [apply fetched_terminating | cbn [length] in Hb; lia]. }
  split; [exact Hrun|].
  destruct (crashed (run handle (c :: rest) _)) eqn:Hc; [left; reflexivity|].
  right. apply settled; assumption.
Qed.

Lemma MigrateInstances_never_hangs_witness :
  let s := run (scripted scenarioNoLaunch) (repeat 0 20)
               (start 0 (MigrateInstances "ami-old" "ami-new" "enabled")) in
  runnable s = [] /\ (crashed s = true \/ exists e, returned s = Some e).
Proof.
  cbv zeta.
  apply (MigrateInstances_never_hangs nat (scripted scenarioNoLaunch) 0
           "ami-old" "ami-new" "enabled" (repeat 0 20)).
  vm_compute. repeat constructor.
Defined.

Example empty_launch_crashes_the_process :
  crashed (run (scripted scenarioNoLaunch) (repeat 0 20)
               (start 0 (MigrateInstances "ami-old" "ami-new" "enabled"))) = true.
Proof. reflexivity. Qed.

(** ** Who queries the provider *)

Section NoQuery.
Variable good : forall q : Request, Response q -> Prop.

Local Abbreviation quiet p :=
  (obeys (rejecting isQuery) good True (fun _ _ => True) tt p).

Lemma quiet_bind {R S : Type} (p : ec2 R) (f : R -> ec2 S) :
  quiet p -> (forall r, quiet (f r)) -> quiet (bind p f).
Proof.
  intros Hp Hf. eapply obeys_bind; [exact Hp|]. intros [] r _. apply Hf.
Qed.

Lemma quiet_tagInstanceStatus (instance : Instance) (status message : string) :
  quiet (tagInstanceStatus instance status message).
Proof. simpl. intros now _ r _. exact I. Qed.

Lemma quiet_report (instance : Instance) (status message : string) :
  quiet (tagInstanceStatus instance status message ;;; Ret tt).
Proof. simpl. intros now _ r _. exact I. Qed.

Lemma quiet_snapshotVolumes (instance : Instance)
    (mappings : list InstanceBlockDeviceMapping) :
  quiet (snapshotVolumes instance mappings).
Proof.
  induction mappings as [|mapping rest IH]; simpl; [exact I|].
  destruct (Ebs mapping) as [ebs|]; [|exact IH].
  simpl. intros [u | err] _; simpl; [exact IH | exact I].
Qed.

Lemma quiet_stopInstance (instance : Instance) : quiet (stopInstance instance).
Proof. simpl. intros [u | err] _; simpl; [intros x _|]; exact I. Qed.

Lemma quiet_startInstance (instance : Instance) : quiet (startInstance instance).
Proof. simpl. intros [u | err] _; simpl; [intros x _|]; exact I. Qed.

Lemma quiet_replaceInstance (newAMI : string) (instance : Instance) :
  quiet (replaceInstance newAMI instance).
Proof.
  simpl. intros [news | err] _; simpl; [|exact I].
  intros [u | err] _; simpl; [|exact I].
  destruct news as [|n more]; simpl; [exact I|]. intros [u' | err] _; exact I.
Qed.

Lemma quiet_upgradeInstance (newAMI : string) (instance : Instance) :
  quiet (upgradeInstance newAMI instance).
Proof.
  unfold upgradeInstance. apply quiet_bind; [apply quiet_snapshotVolumes|].
  intros [err|]; [exact I|].
  destruct (Name (State instance) =? InstanceStateNameRunning).
  - apply quiet_bind; [apply quiet_stopInstance|].
    intros [err|]; [exact I | apply quiet_replaceInstance].
  - apply quiet_replaceInstance.
Qed.

Lemma quiet_migrateTask (newAMI : string) (instance : Instance) (needsStart : bool) :
  quiet (migrateTask newAMI instance needsStart).
Proof.
  assert (Hu : quiet (upgradeTask newAMI instance needsStart)).
  { unfold upgradeTask, completeTask.
    apply quiet_bind; [apply quiet_upgradeInstance|].
    intros [err|]; [apply quiet_report|].
    destruct (needsStart && _); [|apply quiet_report].
    apply quiet_bind; [apply quiet_stopInstance|].
    intros [err|]; apply quiet_report. }
  unfold migrateTask. apply quiet_bind; [apply quiet_tagInstanceStatus|]. intros _.
  destruct (needsStart && _); [|exact Hu].
  apply quiet_bind; [apply quiet_startInstance|].
  intros [err|]; [apply quiet_report | exact Hu].
Qed.

Lemma migrateLoop_queriesOnce {R : Type} (newAMI : string)
    (instances : list Instance) (todo : list (ec2 unit)) (K : goroutine R) :
  obeys_main (rejecting isQuery) tt queriesOnce good True (fun _ _ => True)
             true todo K ->
  obeys_main (rejecting isQuery) tt queriesOnce good True (fun _ _ => True)
             true (expectedTasks newAMI instances ++ todo)%list
             (migrateLoop newAMI instances ;;; K).
Proof.
  intros HK. induction instances as [|instance rest IH]; [exact HK|].
  pose proof (quiet_migrateTask newAMI instance
                (snd (shouldMigrateInstance instance))) as Ht.
  unfold expectedTasks, eligible in *. cbn [migrateLoop filter] in *.
  destruct (shouldMigrateInstance instance) as [shouldMigrate needsStart] eqn:E.
  cbn [fst snd] in *.
  destruct shouldMigrate; cbn [negb map] in *.
  - rewrite E. simpl. split; [exact Ht|]. split; [reflexivity | exact IH].
  - simpl. intros now _ r _. exact IH.
Qed.

Lemma afterFetch_queriesOnce (newAMI : string) (r : result (list Instance)) :
  obeys_main (rejecting isQuery) tt queriesOnce good True (fun _ _ => True)
             true (tasksOf newAMI r) (afterFetch newAMI r).
Proof.
  destruct r as [instances | err]; simpl; [|auto].
  destruct instances as [|instance rest]; [simpl; auto|].
  cbn [len_is_zero].
  rewrite <- (app_nil_r (expectedTasks newAMI (instance :: rest))).
  apply migrateLoop_queriesOnce. simpl. auto.
Qed.
End NoQuery.

Lemma queriesOnce_after (qs : list Request) (m : bool) :
  accepts queriesOnce true qs = Some m -> Forall (fun q => isQuery q = false) qs.
Proof.
  induction qs as [|q rest IH]; simpl; [constructor|].
  destruct q; simpl; try discriminate; intros H; constructor; auto.
Qed.

Lemma run_log_grows {W R : Type} (handle : W -> forall q : Request, W * Response q)
    (schedule : list nat) (s : process W R) :
  exists l, log (run handle schedule s) = (log s ++ l)%list.
Proof.
  revert s. induction schedule as [|c rest IH]; intros s; simpl.
  - exists []. symmetry. apply app_nil_r.
  - destruct (IH (step handle c s)) as (l & ->).
    assert (H : exists l', log (step handle c s) = (log s ++ l')%list).
    { unfold step. destruct (nth_error (runnable s) _) as [[|i]|]; simpl.
      - unfold step_main. destruct (mainG s) as [r | [q | task |] k | msg]; simpl;
          try (exists []; symmetry; apply app_nil_r).
        + destruct (handle (world s) q) as [w1 x]. simpl. eexists. reflexivity.
        + destruct (forallb finished (pool s)); exists []; symmetry; apply app_nil_r.
      - unfold step_task.
        destruct (nth_error (pool s) i) as [[r | q k | msg]|]; simpl;
          try (exists []; symmetry; apply app_nil_r).
        destruct (handle (world s) q) as [w1 x]. simpl. eexists. reflexivity.
      - exists []. symmetry. apply app_nil_r. }
    destruct H as (l' & ->). exists (l' ++ l)%list. rewrite app_assoc. reflexivity.
Qed.

Lemma in_requests_of (g : nat) (ev : Event) (l : list (nat * Event)) :
  In (g, ev) l -> In (request ev) (requests_of g l).
Proof.
  induction l as [|[h ev'] rest IH]; simpl; [auto|].
  intros [[= -> ->] | H].
  - rewrite Nat.eqb_refl. left. reflexivity.
  - destruct (Nat.eqb h g); [right|]; apply IH, H.
Qed.

(** X12.  In every run, whatever the provider answers, the eligibility
    query is the first request of the run and the only query: the main
    goroutine makes it before anything else and never queries again,
    and no task ever queries the provider. *)
Theorem eligibility_is_queried_once (W : Type)
    (handle : W -> forall q : Request, W * Response q) (w : W)
    (oldAMI newAMI enabledValue : string) (schedule : list nat) :
  let s := run handle schedule
               (start w (MigrateInstances oldAMI newAMI enabledValue)) in
  log s = [] \/
  exists a rest,
    log s = (0, mkEvent (DescribeInstances
                           [mkFilter (Some "tag:ami-migrate") [enabledValue]]) a)
            :: rest /\
    Forall (fun e => isQuery (request (snd e)) = false) rest.
Proof.
  cbv zeta. destruct schedule as [|c sched]; [left; reflexivity|]. right.
  rewrite run_from_start.
  set (s1 := fetchedProcess handle w newAMI enabledValue).
  set (r := fetched (snd (handle w (fetchRequest enabledValue)))).
  assert (Hinv : invariant (rejecting isQuery) tt queriesOnce false anyAnswer True
                   (fun _ _ => True) (tasksOf newAMI r) s1).
  { split; [discriminate|]. split.
    - exists true, (tasksOf newAMI r). split; [reflexivity|]. split; [reflexivity|].
      apply afterFetch_queriesOnce.
    - intros i. simpl. rewrite (proj2 (nth_error_None _ _)) by (simpl; lia).
      reflexivity. }
  apply (run_invariant handle _ _ _ _ _ _ _ _ (fun _ _ => I) sched) in Hinv.
  destruct Hinv as (_ & (m & todo & Hacc & _ & _) & Ht).
  destruct (run_log_grows handle sched s1) as (l & El).
  rewrite El in *. change (log s1) with
    [(0, mkEvent (fetchRequest enabledValue)
           (answer_of (fetchRequest enabledValue)
              (snd (handle w (fetchRequest enabledValue)))))] in *.
  eexists. exists l. split; [reflexivity|].
  apply Forall_forall. intros [g ev] Hin. simpl.
  apply in_requests_of in Hin. destruct g as [|i].
  - simpl in Hacc. apply queriesOnce_after in Hacc.
    rewrite Forall_forall in Hacc. apply Hacc, Hin.
  - specialize (Ht i). unfold task_ok in Ht. simpl in Ht.
    destruct (nth_error _ i) as [t|].
    + destruct Ht as (m' & Hm & _). apply accepts_rejecting in Hm.
      rewrite Forall_forall in Hm. apply Hm, Hin.
    + rewrite Ht in Hin. destruct Hin.
Qed.
